(** * bench_llama: a model of examples/inference/bench_llama.py

    The benchmark script times repeated calls of an external inference
    engine and prints latency, bandwidth and throughput statistics.  The
    development below embeds the script's own code: the statistics routine
    [print_perf_stats], the timing loop of [run_llama_test], the launch
    wrappers [check_llama] and [test_llama], and the declarations of the
    command-line parser.

    Numbers.  Python floats are modelled by exact rationals ([Qc]): sums,
    products and quotients are the mathematical ones and no rounding takes
    place.  Python ints are [Z].  A formatted number is represented by the
    number handed to [str.format], not by its decimal rendering. *)

From Stdlib Require Import ZArith QArith Qcanon Lia Permutation Sorted.
From stdpp Require Import base decidable option list sorting numbers strings gmap.

Local Open Scope Z_scope.

(** ** Exceptions, results and the effect monad *)

Inductive exn :=
  | ZeroDivisionError
  | AttributeError (attr : string)
  | ValueError (msg : string)
  | NameError (name : string)
  | AddressInUse
  | SystemExit (code : Z)
  | RuntimeError (msg : string).

Inductive result (A : Type) :=
  | Ok (a : A)
  | Raise (e : exn).
Arguments Ok {A} a.
Arguments Raise {A} e.

Definition is_ok {A} (r : result A) : bool :=
  match r with Ok _ => true | Raise _ => false end.

(** What the script writes to stdout, one constructor per [print] call. *)
Inductive line :=
  | AvgLatencyMs (v : Qc)      (* "Avg Per Token Latency: {0:8.2f} ms" *)
  | AvgBW (v : Qc)             (* "Avg BW: {0:8.2f} GB/s" *)
  | AvgFlops (v : Qc)          (* "Avg flops: {0:8.2f} TFlops/s" *)
  | GenerationTime (v : Qc)    (* "generation time {} s" *)
  | OutputsLen (n : Z)         (* "outputs, " len(outputs) *)
  | ProfilerTable.             (* prof.key_averages().table(...) *)

(** Observable actions, in program order. *)
Inductive event :=
  | EvTokenizer (path : string)
  | EvModel (path : string)
  | EvEngine (tp : bool) (bs input_len output_len : Z)
  | EvInputs (bs input_len : Z)
  | EvSync
  | EvTime (t : Qc)
  | EvGenerate (max_new_tokens : Z)
  | EvProfileEnter
  | EvRecordEnter (name : string)
  | EvRecordExit
  | EvProfileExit
  | EvKeyAverages
  | EvPrint (l : line)
  | EvLaunch (rank world_size port : Z)
  | EvRaised (e : exn).

(** The machine state threaded through the script: the trace of actions so
    far and the number of [/] operations evaluated. *)
Record state := State { trace : list event; divs : nat }.

Definition M (A : Type) : Type := state -> result A * state.

Definition ret {A} (a : A) : M A := fun s => (Ok a, s).

Definition bind {A B} (k : A -> M B) (m : M A) : M B :=
  fun s => match m s with
           | (Ok a, s') => k a s'
           | (Raise e, s') => (Raise e, s')
           end.

#[global] Instance M_ret : MRet M := @ret.
#[global] Instance M_bind : MBind M := @bind.

Definition emit (e : event) : M unit :=
  fun s => (Ok tt, State (trace s ++ [e]) (divs s)).

Definition raise {A} (e : exn) : M A :=
  fun s => (Raise e, State (trace s ++ [EvRaised e]) (divs s)).

Definition print (l : line) : M unit := emit (EvPrint l).

(** Lifts the answer of an external call, after recording the call. *)
Definition external {A} (e : event) (r : result A) : M A :=
  emit e;; match r with Ok a => ret a | Raise x => raise x end.

(** Python's [/]: one division is counted, a zero divisor raises. *)
Definition divM (a b : Qc) : M Qc :=
  fun s =>
    let s' := State (trace s) (S (divs s)) in
    if decide (b = 0%Qc) then raise ZeroDivisionError s'
    else (Ok (a / b)%Qc, s').

(** ** Python list operations used by the script *)

(** [l[start:]] for an int [start]: a negative [start] counts from the end
    and is clamped at the beginning of the list. *)
Definition slice_from {A} (l : list A) (start : Z) : list A :=
  if start <? 0 then drop (Z.to_nat (Z.of_nat (length l) + start)) l
  else drop (Z.to_nat start) l.

(** [sum(l)]: left-to-right additions starting from 0. *)
Definition sum (l : list Qc) : Qc := fold_left Qcplus l 0%Qc.

(** [l.sort()]: ascending order. *)
Definition sort (l : list Qc) : list Qc := merge_sort Qcle l.

(** ** Model configuration objects *)

(** A config is the finite map of its integer attributes. *)
Definition config := gmap string Z.

Definition getattr (c : config) (name : string) : M Z :=
  match c !! name with
  | Some v => ret v
  | None => raise (AttributeError name)
  end.

Definition e9 : Qc := Qc_of_Z 1000000000.
Definition e12 : Qc := Qc_of_Z 1000000000000.

(** ** print_perf_stats *)

Definition print_perf_stats (latency_set : list Qc) (cfg : config) (bs : Z)
    (warmup : Z) : M unit :=
  (* trim warmup queries *)
  let latency_set := slice_from latency_set warmup in
  let count := length latency_set in
  if (0 <? count)%nat then
    let latency_set := sort latency_set in
    avg ← divM (sum latency_set) (Qc_of_Z (Z.of_nat count));
    (* the default argument of getattr is evaluated before the lookup *)
    dflt ← getattr cfg "num_hidden_layers";
    let num_layers := default dflt (cfg !! "num_layers") in
    h ← getattr cfg "hidden_size";
    h' ← getattr cfg "hidden_size";
    let num_parameters := num_layers * h * h' * 12 in
    let num_bytes := 2 in
    print (AvgLatencyMs (avg * Qc_of_Z 1000)%Qc);;
    inv ← divM 1%Qc avg;
    bw ← divM (inv * Qc_of_Z num_parameters * Qc_of_Z num_bytes)%Qc e9;
    print (AvgBW bw);;
    inv' ← divM 1%Qc avg;
    fl ← divM (inv' * Qc_of_Z num_parameters * Qc_of_Z num_bytes
               * Qc_of_Z bs)%Qc e12;
    print (AvgFlops fl)
  else ret tt.

Definition warmup_default : Z := 3.

(** ** Decidable equality, used to evaluate the model on concrete runs *)

#[global] Instance exn_eq_dec : EqDecision exn.
Proof. solve_decision. Defined.
#[global] Instance result_eq_dec {A} `{EqDecision A} : EqDecision (result A).
Proof. solve_decision. Defined.
#[global] Instance line_eq_dec : EqDecision line.
Proof. solve_decision. Defined.
#[global] Instance event_eq_dec : EqDecision event.
Proof. solve_decision. Defined.
#[global] Instance state_eq_dec : EqDecision state.
Proof. solve_decision. Defined.

(** Closed equalities between model values are settled by evaluation. *)
Ltac by_eval :=
  match goal with
  | |- ?x = ?y => apply (bool_decide_eq_true_1 (x = y)); vm_compute; reflexivity
  | |- ?x <> ?y => apply (bool_decide_eq_false_1 (x = y)); vm_compute; reflexivity
  | |- ~ (?x = ?y) => apply (bool_decide_eq_false_1 (x = y)); vm_compute; reflexivity
  end.

(** ** Closed forms used to state the results *)

(** The arithmetic mean of a list of samples, taken in the given order. *)
Definition mean (l : list Qc) : Qc :=
  (sum l / Qc_of_Z (Z.of_nat (length l)))%Qc.


(** The statistics in closed form, as functions of the mean latency. *)
Definition bandwidth (parameters bytes : Z) (avg : Qc) : Qc :=
  (Qc_of_Z parameters * Qc_of_Z bytes / avg / e9)%Qc.

Definition append_events (s : state) (evs : list event) (d : nat) : state :=
  State (trace s ++ evs) (d + divs s).

Definition perf_outcome (kept : list Qc) (cfg : config) (bs : Z) (s : state)
    : result unit * state :=
  match kept with
  | [] => (Ok tt, s)
  | _ :: _ =>
    let avg := mean kept in
    match cfg !! "num_hidden_layers", cfg !! "hidden_size" with
    | None, _ =>
        (Raise (AttributeError "num_hidden_layers"),
         append_events s [EvRaised (AttributeError "num_hidden_layers")] 1)
    | Some _, None =>
        (Raise (AttributeError "hidden_size"),
         append_events s [EvRaised (AttributeError "hidden_size")] 1)
    | Some nh, Some h =>
        let num_layers := default nh (cfg !! "num_layers") in
        let parameters := num_layers * h * h * 12 in
        if decide (avg = 0%Qc) then
          (Raise ZeroDivisionError,
           append_events s
             [EvPrint (AvgLatencyMs (avg * Qc_of_Z 1000)%Qc);
              EvRaised ZeroDivisionError] 2)
        else
          let bw := bandwidth parameters 2 avg in
          (Ok tt,
           append_events s
             [EvPrint (AvgLatencyMs (avg * Qc_of_Z 1000)%Qc);
              EvPrint (AvgBW bw);
              EvPrint (AvgFlops (bw * Qc_of_Z bs / Qc_of_Z 1000)%Qc)] 5)
    end
  end.


(** The events a call of [print_perf_stats] adds to an empty trace. *)
Definition printed (l : list Qc) (cfg : config) (bs w : Z) : list event :=
  trace (print_perf_stats l cfg bs w (State [] 0)).2.

(** [print_perf_stats] with its [latency_set.sort()] statement removed; only
    used to state that sorting has no visible effect. *)
Definition print_perf_stats_unsorted (latency_set : list Qc) (cfg : config)
    (bs : Z) (warmup : Z) : M unit :=
  let latency_set := slice_from latency_set warmup in
  let count := length latency_set in
  if (0 <? count)%nat then
    avg ← divM (sum latency_set) (Qc_of_Z (Z.of_nat count));
    dflt ← getattr cfg "num_hidden_layers";
    let num_layers := default dflt (cfg !! "num_layers") in
    h ← getattr cfg "hidden_size";
    h' ← getattr cfg "hidden_size";
    let num_parameters := num_layers * h * h' * 12 in
    let num_bytes := 2 in
    print (AvgLatencyMs (avg * Qc_of_Z 1000)%Qc);;
    inv ← divM 1%Qc avg;
    bw ← divM (inv * Qc_of_Z num_parameters * Qc_of_Z num_bytes)%Qc e9;
    print (AvgBW bw);;
    inv' ← divM 1%Qc avg;
    fl ← divM (inv' * Qc_of_Z num_parameters * Qc_of_Z num_bytes
               * Qc_of_Z bs)%Qc e12;
    print (AvgFlops fl)
  else ret tt.

(** Sample data for evaluating the routine. *)
Definition q (n : Z) : Qc := Qc_of_Z n.
Definition llama_cfg : config :=
  {[ "num_hidden_layers" := 32; "hidden_size" := 4096 ]}.

(** ** The world outside the script *)

(** The parsed command line ([argparse.Namespace]). *)
Record args := Args {
  path : string;
  tp_size : Z;
  batch_size : Z;
  input_len : Z;
  output_len : Z }.

(** Everything the script calls but does not define: model loading, the
    inference engine, the CUDA runtime, the clock, the profiler and the
    distributed launcher.  Each answer may depend on the whole history of
    actions so far; a call either returns or raises. *)
Record world := World {
  tokenizer_from_pretrained : list event -> string -> result unit;
  model_from_pretrained : list event -> string -> result config;
  engine_init : list event -> bool -> Z -> Z -> Z -> result unit;
  make_inputs : list event -> Z -> Z -> result unit;
  synchronize : list event -> result unit;
  time : list event -> Qc;
  generate : list event -> Z -> result (Z * Z);
  profiler_table : list event -> result unit;
  launch : list event -> Z -> Z -> Z -> result unit }.

(** An external call: the world answers from the history, the call is
    recorded, and a failure is raised in the script. *)
Definition call {A} (answer : list event -> result A) (e : event) : M A :=
  fun s => external e (answer (trace s)) s.

Definition cuda_synchronize (w : world) : M unit :=
  call (synchronize w) EvSync.

Definition time_time (w : world) : M Qc :=
  fun s => let t := time w (trace s) in (emit (EvTime t);; ret t) s.

Definition engine_generate (w : world) (max_new_tokens : Z) : M (Z * Z) :=
  call (fun h => generate w h max_new_tokens) (EvGenerate max_new_tokens).

(** A [with] block: the exit handler runs whether or not the body raises,
    and the body's result, exception included, is passed on. *)
Definition with_ctx {A} (enter exit : event) (body : M A) : M A :=
  fun s =>
    let '(r, s') := (emit enter;; body) s in
    (r, State (trace s' ++ [exit]) (divs s')).

(** ** run_llama_test *)

Definition iters : nat := 10.

(** Lines 61-65: the barriers, the two clock reads and the generate call. *)
Definition timed_generate (w : world) (max_new_tokens : Z)
    : M (Qc * Qc * (Z * Z)) :=
  cuda_synchronize w;;
  start ← time_time w;
  outputs ← engine_generate w max_new_tokens;
  cuda_synchronize w;;
  end_ ← time_time w;
  mret (start, end_, outputs).

(** Lines 66-68: the per-token latency of one iteration is appended. *)
Definition record_sample (max_input_len : Z) (times : list Qc)
    (start end_ : Qc) (outputs : Z * Z) : M (list Qc) :=
  let out_len := outputs.2 in
  print (GenerationTime (end_ - start)%Qc);;
  sample ← divM (end_ - start)%Qc (Qc_of_Z (out_len - max_input_len));
  mret (times ++ [sample]).

(** [for i in range(n)]: the loop threads [times] and the last [outputs]. *)
Fixpoint timing_loop (w : world) (max_input_len max_new_tokens : Z)
    (n : nat) (times : list Qc) (outputs : option (Z * Z))
    : M (list Qc * option (Z * Z)) :=
  match n with
  | O => mret (times, outputs)
  | S n' =>
      '(start, end_, outputs) ← timed_generate w max_new_tokens;
      times ← record_sample max_input_len times start end_ outputs;
      timing_loop w max_input_len max_new_tokens n' times (Some outputs)
  end.

Definition run_llama_test (w : world) (a : args) : M unit :=
  let llama_model_path := path a in
  let max_batch_size := batch_size a in
  let max_input_len := input_len a in
  let max_output_len := output_len a in
  call (fun h => tokenizer_from_pretrained w h llama_model_path)
       (EvTokenizer llama_model_path);;
  model_config ← call (fun h => model_from_pretrained w h llama_model_path)
                      (EvModel llama_model_path);
  let tp := bool_decide (1 < tp_size a) in
  call (fun h => engine_init w h tp max_batch_size max_input_len max_output_len)
       (EvEngine tp max_batch_size max_input_len max_output_len);;
  call (fun h => make_inputs w h max_batch_size max_input_len)
       (EvInputs max_batch_size max_input_len);;
  '(times, outputs) ← timing_loop w max_input_len max_output_len iters [] None;
  outputs ← from_option mret (raise (NameError "outputs")) outputs;
  print (OutputsLen outputs.1);;
  print_perf_stats times model_config max_batch_size warmup_default;;
  with_ctx EvProfileEnter EvProfileExit
    (with_ctx (EvRecordEnter "model_inference") EvRecordExit
       (cuda_synchronize w;;
        engine_generate w max_output_len;;
        cuda_synchronize w));;
  call (profiler_table w) EvKeyAverages;;
  print ProfilerTable.

(** ** check_llama and test_llama *)

Definition check_llama (w : world) (rank world_size port : Z) (a : args)
    : M unit :=
  call (fun h => launch w h rank world_size port)
       (EvLaunch rank world_size port);;
  run_llama_test w a.

(** The first failure in a list of results, in list order. *)
Fixpoint first_failure (rs : list (result unit)) : result unit :=
  match rs with
  | [] => Ok tt
  | Ok _ :: rs' => first_failure rs'
  | Raise e :: _ => Raise e
  end.

(** Modelled from the spec: [spawn] is defined in colossalai.testing, not in
    the benchmark script.  "The script spawns worker processes for
    distributed (tensor-parallel) execution and waits for completion; each
    worker independently loads the model and executes the identical
    benchmark loop."  Workers do not interact; the call returns normally
    when every worker does and otherwise raises the failure of the lowest
    failing rank. *)
Definition spawn (worker : Z -> result unit) (nprocs : Z) : result unit :=
  first_failure (worker <$> seqZ 0 nprocs).

(** Modelled from the spec: [rerun_if_address_is_in_use] is defined in
    colossalai.testing, not in the benchmark script.  "an external decorator
    that restarts the whole test if a network address is already in use".
    The spec gives no bound on the number of restarts; [max_try] is the
    number of restarts allowed, after which the failure is passed on. *)
Fixpoint rerun_if_address_is_in_use (max_try : nat)
    (test : nat -> result unit) (attempt : nat) : result unit :=
  match test attempt with
  | Raise AddressInUse =>
      match max_try with
      | O => Raise AddressInUse
      | S n => rerun_if_address_is_in_use n test (S attempt)
      end
  | r => r
  end.

(** The machines of one benchmark: the world seen by each worker of each
    attempt, and the port picked for each attempt. *)
Record cluster := Cluster {
  worker_world : nat -> Z -> world;
  free_port : nat -> Z }.

(** One attempt of the test body: [spawn(check_llama, args.tp_size, args)]. *)
Definition test_body (c : cluster) (a : args) (attempt : nat) : result unit :=
  spawn (fun rank =>
           (check_llama (worker_world c attempt rank) rank (tp_size a)
                        (free_port c attempt) a (State [] 0)).1)
        (tp_size a).

(** [clear_cache_before_run] only empties caches before the body runs and
    has no effect on the result. *)
Definition test_llama (c : cluster) (max_try : nat) (a : args) : result unit :=
  rerun_if_address_is_in_use max_try (test_body c a) 0.

(** ** The command line *)

Inductive arg_type := TStr | TInt.

Inductive value := VStr (s : string) | VInt (n : Z).

(** One [parser.add_argument] call. *)
Record argument := Argument {
  option_strings : list string;
  dest : string;
  type_ : arg_type;
  default_ : option value;
  required : bool }.

Definition parser_arguments : list argument :=
  [ Argument ["-p"; "--path"] "path" TStr None true;
    Argument ["-tp"; "--tp_size"] "tp_size" TInt (Some (VInt 1)) false;
    Argument ["-b"; "--batch_size"] "batch_size" TInt (Some (VInt 16)) false;
    Argument ["--input_len"] "input_len" TInt (Some (VInt 1024)) false;
    Argument ["--output_len"] "output_len" TInt (Some (VInt 128)) false ].

(** A command line is taken after argparse has recognised its options: a
    list of occurrences, each the declared option string it was recognised
    as and the one value that follows it. *)
Definition argv := list (string * string).

Notation namespace := (gmap string value).

Definition find_argument (opt : string) : option argument :=
  List.find (fun a => bool_decide (opt ∈ option_strings a)) parser_arguments.

(** The namespace starts from the declared defaults. *)
Definition defaults : namespace :=
  foldr (fun a ns => match default_ a with
                     | Some v => <[dest a := v]> ns
                     | None => ns
                     end) ∅ parser_arguments.

Definition to_args (ns : namespace) : option args :=
  match ns !! "path", ns !! "tp_size", ns !! "batch_size",
        ns !! "input_len", ns !! "output_len" with
  | Some (VStr p), Some (VInt tp), Some (VInt b), Some (VInt i),
    Some (VInt o) => Some (Args p tp b i o)
  | _, _, _, _, _ => None
  end.

Section parse_args.
(** Python's [int] applied to a string: [None] when it raises. *)
Variable py_int : string -> option Z.

(** argparse exits with status 2 on any usage error. *)
Definition usage_error {A} : result A := Raise (SystemExit 2).

Definition convert (t : arg_type) (v : string) : result value :=
  match t with
  | TStr => Ok (VStr v)
  | TInt => match py_int v with
            | Some n => Ok (VInt n)
            | None => usage_error            (* invalid int value *)
            end
  end.

(** Occurrences are taken left to right; each value is converted and
    stored under its destination, a later one replacing an earlier. *)
Fixpoint consume (av : argv) (ns : namespace) (seen : list string)
    : result (namespace * list string) :=
  match av with
  | [] => Ok (ns, seen)
  | (opt, v) :: av' =>
      match find_argument opt with
      | None => usage_error                  (* unrecognized arguments *)
      | Some a =>
          match convert (type_ a) v with
          | Ok x => consume av' (<[dest a := x]> ns) (dest a :: seen)
          | Raise e => Raise e
          end
      end
  end.

Definition parse_args (av : argv) : result args :=
  match consume av defaults [] with
  | Raise e => Raise e
  | Ok (ns, seen) =>
      if forallb (fun a => implb (required a) (bool_decide (dest a ∈ seen)))
                 parser_arguments
      then match to_args ns with Some a => Ok a | None => usage_error end
      else usage_error     (* the following arguments are required *)
  end.
End parse_args.

(** The [__main__] block: parse the command line, then run the test. *)
Definition main (py_int : string -> option Z) (c : cluster) (max_try : nat)
    (av : argv) : result unit :=
  match parse_args py_int av with
  | Ok a => test_llama c max_try a
  | Raise e => Raise e
  end.

(** Values are stored with the declared type of their destination. *)
Definition typed (ns : namespace) : Prop :=
  forall a, a ∈ parser_arguments ->
    match ns !! dest a with
    | Some (VStr _) => type_ a = TStr
    | Some (VInt _) => type_ a = TInt
    | None => default_ a = None
    end.

(** A reader of plain decimal numerals, standing for [int] in examples. *)
Definition digit_value (c : Ascii.ascii) : option Z :=
  let n := Z.of_nat (Ascii.nat_of_ascii c) in
  if bool_decide (48 <= n <= 57) then Some (n - 48) else None.

Fixpoint decimal (acc : Z) (s : string) : option Z :=
  match s with
  | EmptyString => Some acc
  | String c s' =>
      match digit_value c with
      | Some d => decimal (10 * acc + d) s'
      | None => None
      end
  end.

Definition plain_int (s : string) : option Z :=
  match s with EmptyString => None | _ => decimal 0 s end.

(** ** Reading traces *)

Definition is_sync (e : event) : bool :=
  match e with EvSync => true | _ => false end.
Definition is_generate (e : event) : bool :=
  match e with EvGenerate _ => true | _ => false end.
Definition is_time (e : event) : bool :=
  match e with EvTime _ => true | _ => false end.
Definition is_raised (e : event) : bool :=
  match e with EvRaised _ => true | _ => false end.

Definition count_generate (tr : list event) : nat :=
  length (filter (fun e => is_generate e = true) tr).

(** What one pass through the loop body leaves behind. *)
Record iteration := Iteration {
  it_start : Qc;
  it_end : Qc;
  it_outputs : Z * Z }.

Definition iteration_events (max_new_tokens : Z) (it : iteration)
    : list event :=
  [ EvSync; EvTime (it_start it); EvGenerate max_new_tokens; EvSync;
    EvTime (it_end it);
    EvPrint (GenerationTime (it_end it - it_start it)%Qc) ].

Definition iteration_sample (max_input_len : Z) (it : iteration) : Qc :=
  ((it_end it - it_start it)
   / Qc_of_Z ((it_outputs it).2 - max_input_len))%Qc.

Definition setup_events (a : args) : list event :=
  [ EvTokenizer (path a); EvModel (path a);
    EvEngine (bool_decide (1 < tp_size a)) (batch_size a) (input_len a)
             (output_len a);
    EvInputs (batch_size a) (input_len a) ].

Definition profiled_events (max_new_tokens : Z) : list event :=
  [ EvProfileEnter; EvRecordEnter "model_inference"; EvSync;
    EvGenerate max_new_tokens; EvSync; EvRecordExit; EvProfileExit ].

(** The iteration [it] is what the world [w] answers when the loop body
    starts from the history [h]: its clock reads and its outputs are the
    world's answers at the moments the body asks. *)
Definition answered (w : world) (max_new_tokens : Z) (h : list event)
    (it : iteration) : Prop :=
  it_start it = time w (h ++ [EvSync]) /\
  generate w (h ++ [EvSync; EvTime (it_start it)]) max_new_tokens
    = Ok (it_outputs it) /\
  it_end it
    = time w (h ++ [EvSync; EvTime (it_start it);
                    EvGenerate max_new_tokens; EvSync]).

Fixpoint iterations_of (w : world) (max_new_tokens : Z) (h : list event)
    (its : list iteration) : Prop :=
  match its with
  | [] => True
  | it :: its' =>
      answered w max_new_tokens h it /\
      iterations_of w max_new_tokens
        (h ++ iteration_events max_new_tokens it) its'
  end.

(** The order of barriers, clock reads and generate calls in a trace:
    [bracketing timed profiled tr] holds when every such event of [tr]
    belongs to one of [timed] groups barrier, clock read, generate, barrier,
    clock read, or to one of [profiled] groups barrier, generate, barrier. *)
Inductive bracketing : nat -> nat -> list event -> Prop :=
  | bracketing_nil : bracketing 0 0 []
  | bracketing_other n p e tr :
      is_sync e = false -> is_generate e = false -> is_time e = false ->
      bracketing n p tr -> bracketing n p (e :: tr)
  | bracketing_timed n p t0 m t1 tr :
      bracketing n p tr ->
      bracketing (S n) p
        (EvSync :: EvTime t0 :: EvGenerate m :: EvSync :: EvTime t1 :: tr)
  | bracketing_profiled n p m tr :
      bracketing n p tr ->
      bracketing n (S p) (EvSync :: EvGenerate m :: EvSync :: tr).

(** The events from the head of [tr] up to its first barrier, when there
    is one. *)
Fixpoint until_barrier (tr : list event) : option (list event) :=
  match tr with
  | [] => None
  | e :: tr' =>
      if is_sync e then Some []
      else cons e <$> until_barrier tr'
  end.

(** The event at position [i] lies inside a barrier pair around a generate
    call: there is a barrier before it and a barrier after it, and a
    generate call between the nearest two. *)
Definition inside_barrier_pair (tr : list event) (i : nat) : bool :=
  match until_barrier (reverse (take i tr)), until_barrier (drop (S i) tr) with
  | Some before, Some after => existsb is_generate (before ++ after)
  | _, _ => false
  end.

(** Every clock read of the trace lies inside such a pair. *)
Definition reads_inside_barrier_pairs (tr : list event) : bool :=
  forallb (fun i => match tr !! i with
                    | Some (EvTime _) => inside_barrier_pair tr i
                    | _ => true
                    end)
          (seq 0 (length tr)).

(** ** Exceptions are never handled *)

(** Events that may still follow a raised exception: the exits of the
    [with] blocks it passes through. *)
Definition is_exit (e : event) : bool :=
  match e with EvRecordExit | EvProfileExit => true | _ => false end.

(** [evs] is what a computation with result [r] may leave behind when no
    exception is ever caught: no exception was raised if it returned, and
    if it raised [e] then [e] is the only exception raised and only exit
    handlers ran afterwards. *)
Definition uncaught {A} (r : result A) (evs : list event) : Prop :=
  match r with
  | Ok _ => Forall (fun e => is_raised e = false) evs
  | Raise x =>
      exists pre post,
        evs = pre ++ EvRaised x :: post /\
        Forall (fun e => is_raised e = false) pre /\
        Forall (fun e => is_exit e = true) post
  end.

Definition propagates {A} (m : M A) : Prop :=
  forall s, exists evs,
    trace (m s).2 = trace s ++ evs /\ uncaught (m s).1 evs.

(** The trace of a run that returns. *)
Definition run_events (a : args) (cfg : config) (its : list iteration)
    (outputs : Z * Z) : list event :=
  setup_events a
  ++ concat (iteration_events (output_len a) <$> its)
  ++ [EvPrint (OutputsLen outputs.1)]
  ++ printed (iteration_sample (input_len a) <$> its) cfg (batch_size a)
             warmup_default
  ++ profiled_events (output_len a)
  ++ [EvKeyAverages; EvPrint ProfilerTable].

(** [m] never handles an exception and makes at most [n] generate calls,
    from whatever state it is started. *)
Definition well_behaved {A} (n : nat) (m : M A) : Prop :=
  forall s, exists evs,
    trace (m s).2 = trace s ++ evs /\
    uncaught (m s).1 evs /\
    (count_generate evs <= n)%nat.

(** A world that cooperates with a run on the arguments [a]: no call
    fails, the loaded config carries the attributes the statistics read,
    every generate call returns more tokens than it was given, and the clock
    advances with every action. *)
Definition cooperative (w : world) (a : args) : Prop :=
  (forall h p, tokenizer_from_pretrained w h p = Ok tt) /\
  (forall h p, exists cfg,
     model_from_pretrained w h p = Ok cfg /\
     is_Some (cfg !! "num_hidden_layers") /\ is_Some (cfg !! "hidden_size")) /\
  (forall h tp b i o, engine_init w h tp b i o = Ok tt) /\
  (forall h b i, make_inputs w h b i = Ok tt) /\
  (forall h, synchronize w h = Ok tt) /\
  (forall h m, exists o, generate w h m = Ok o /\ input_len a < o.2) /\
  (forall h, profiler_table w h = Ok tt) /\
  (forall h evs, evs <> [] -> (time w h < time w (h ++ evs))%Qc).

(** A world in which every call succeeds: the clock advances by one second
    per recorded action and every generate call returns [new_tokens] new
    tokens for each of the [bs] rows. *)
Definition quiet_world (cfg : config) (bs input new_tokens : Z) : world :=
  {| tokenizer_from_pretrained := fun _ _ => Ok tt;
     model_from_pretrained := fun _ _ => Ok cfg;
     engine_init := fun _ _ _ _ _ => Ok tt;
     make_inputs := fun _ _ _ => Ok tt;
     synchronize := fun _ => Ok tt;
     time := fun h => Qc_of_Z (Z.of_nat (length h));
     generate := fun _ _ => Ok (bs, input + new_tokens);
     profiler_table := fun _ => Ok tt;
     launch := fun _ _ _ _ => Ok tt |}.

Definition default_args : args := Args "/models/llama-7b" 1 16 1024 128.

(** The quiet world, except that the model cannot be loaded. *)
Definition no_model_world : world :=
  {| tokenizer_from_pretrained := fun _ _ => Ok tt;
     model_from_pretrained := fun _ _ => Raise (ValueError "no model at path");
     engine_init := fun _ _ _ _ _ => Ok tt;
     make_inputs := fun _ _ _ => Ok tt;
     synchronize := fun _ => Ok tt;
     time := fun h => Qc_of_Z (Z.of_nat (length h));
     generate := fun _ _ => Ok (16, 1152);
     profiler_table := fun _ => Ok tt;
     launch := fun _ _ _ _ => Ok tt |}.

(** The quiet world, except that the launch finds its port taken. *)
Definition busy_port_world : world :=
  {| tokenizer_from_pretrained := fun _ _ => Ok tt;
     model_from_pretrained := fun _ _ => Ok llama_cfg;
     engine_init := fun _ _ _ _ _ => Ok tt;
     make_inputs := fun _ _ _ => Ok tt;
     synchronize := fun _ => Ok tt;
     time := fun h => Qc_of_Z (Z.of_nat (length h));
     generate := fun _ _ => Ok (16, 1152);
     profiler_table := fun _ => Ok tt;
     launch := fun _ _ _ _ => Raise AddressInUse |}.

Definition llama_world : world := quiet_world llama_cfg 16 1024 128.

Definition no_model_cluster : cluster :=
  Cluster (fun _ _ => no_model_world) (fun _ => 29500).

(** The port is taken at the first attempt only. *)
Definition busy_once_cluster : cluster :=
  Cluster (fun attempt _ =>
             match attempt with O => busy_port_world | S _ => llama_world end)
          (fun attempt => 29500 + Z.of_nat attempt).

(** ** Vocabulary for further properties *)

(** The lines written to stdout, in order. *)
Definition lines (evs : list event) : list line :=
  omap (fun e => match e with EvPrint l => Some l | _ => None end) evs.

(** A config that carries [num_layers] but not [num_hidden_layers]. *)
Definition glm_cfg : config :=
  {[ "num_layers" := 28; "hidden_size" := 4096 ]}.

(** [m] extends the trace, from whatever state it starts, by events that
    together satisfy [Q]. *)
Definition emits (Q : list event -> Prop) {A} (m : M A) : Prop :=
  forall s, exists evs, trace (m s).2 = trace s ++ evs /\ Q evs.

(** The actions a run on the arguments [a] can take. *)
Definition run_alphabet (a : args) (e : event) : bool :=
  match e with
  | EvTokenizer p | EvModel p => bool_decide (p = path a)
  | EvEngine tp bs i o =>
      bool_decide (tp = bool_decide (1 < tp_size a) /\ bs = batch_size a
                   /\ i = input_len a /\ o = output_len a)
  | EvInputs bs i => bool_decide (bs = batch_size a /\ i = input_len a)
  | EvGenerate m => bool_decide (m = output_len a)
  | EvRecordEnter name => bool_decide (name = "model_inference")
  | EvLaunch _ _ _ => false
  | EvSync | EvTime _ | EvProfileEnter | EvRecordExit | EvProfileExit
  | EvKeyAverages | EvPrint _ | EvRaised _ => true
  end.

(** The three statistics lines of [print_perf_stats]. *)
Definition is_statistic (e : event) : bool :=
  match e with
  | EvPrint (AvgLatencyMs _) | EvPrint (AvgBW _) | EvPrint (AvgFlops _) => true
  | _ => false
  end.

Definition count_events (p : event -> bool) (tr : list event) : nat :=
  length (filter (fun e => p e = true) tr).

Definition is_enter (e : event) : bool :=
  match e with EvProfileEnter | EvRecordEnter _ => true | _ => false end.

(** As many [with] blocks have been left as were entered. *)
Definition balanced (evs : list event) : Prop :=
  count_events is_enter evs = count_events is_exit evs.

(** A world in which every call succeeds but generate returns its input
    unchanged, with no new token. *)
Definition no_new_tokens (w : world) (a : args) : Prop :=
  (forall h p, tokenizer_from_pretrained w h p = Ok tt) /\
  (forall h p, is_ok (model_from_pretrained w h p) = true) /\
  (forall h tp b i o, engine_init w h tp b i o = Ok tt) /\
  (forall h b i, make_inputs w h b i = Ok tt) /\
  (forall h, synchronize w h = Ok tt) /\
  (forall h m, exists o, generate w h m = Ok o /\ o.2 = input_len a).

(** The value of the last occurrence, on a command line, of an option
    written in one of the given spellings. *)
Definition last_value (av : argv) (spellings : list string) : option string :=
  snd <$> last (filter (fun o => o.1 ∈ spellings) av).

(** ** Running monadic code *)

Section monad_facts.
Context {A B : Type}.
Implicit Types (m : M A) (k : A -> M B) (s : state).

Lemma bind_ok m k s a s' : m s = (Ok a, s') -> (m ≫= k) s = k a s'.
Proof. intros H. unfold mbind, M_bind, bind. by rewrite H. Qed.

Lemma bind_raise m k s e s' :
  m s = (Raise e, s') -> (m ≫= k) s = (Raise e, s').
Proof. intros H. unfold mbind, M_bind, bind. by rewrite H. Qed.
End monad_facts.

Lemma divM_nonzero a b s :
  b <> 0%Qc -> divM a b s = (Ok (a / b)%Qc, State (trace s) (S (divs s))).
Proof. intros Hb. unfold divM. by destruct (decide (b = 0%Qc)). Qed.

Lemma divM_zero a s :
  divM a 0%Qc s
  = (Raise ZeroDivisionError,
     State (trace s ++ [EvRaised ZeroDivisionError]) (S (divs s))).
Proof. unfold divM. by destruct (decide (0%Qc = 0%Qc)). Qed.

Lemma getattr_Some c name v s :
  c !! name = Some v -> getattr c name s = (Ok v, s).
Proof. intros H. unfold getattr. by rewrite H. Qed.

Lemma getattr_None c name s :
  c !! name = None ->
  getattr c name s
  = (Raise (AttributeError name),
     State (trace s ++ [EvRaised (AttributeError name)]) (divs s)).
Proof. intros H. unfold getattr. by rewrite H. Qed.

(** ** Facts about the list operations *)

Lemma slice_from_nonneg {A} (l : list A) (w : Z) :
  0 <= w -> slice_from l w = drop (Z.to_nat w) l.
Proof.
  intros Hw. unfold slice_from.
  destruct (Z.ltb_spec w 0); [lia | reflexivity].
Qed.

Lemma slice_from_neg {A} (l : list A) (w : Z) :
  w < 0 -> slice_from l w = drop (length l - Z.to_nat (- w)) l.
Proof.
  intros Hw. unfold slice_from.
  destruct (Z.ltb_spec w 0); [f_equal; lia | lia].
Qed.

Lemma fold_left_Qcplus_acc (l : list Qc) (a : Qc) :
  fold_left Qcplus l a = (a + fold_left Qcplus l 0)%Qc.
Proof.
  revert a. induction l as [|x l IH]; intros a; simpl.
  - ring.
  - rewrite (IH (a + x)%Qc), (IH (0 + x)%Qc). ring.
Qed.

Lemma sum_cons x l : sum (x :: l) = (x + sum l)%Qc.
Proof.
  unfold sum. simpl. rewrite fold_left_Qcplus_acc. ring.
Qed.

(** Addition of rationals is associative and commutative, so the sum does
    not depend on the order of the samples. *)
Lemma sum_Permutation l l' : l ≡ₚ l' -> sum l = sum l'.
Proof.
  induction 1 as [|x l l' _ IH|x y l|l l' l'' _ IH1 _ IH2].
  - reflexivity.
  - by rewrite !sum_cons, IH.
  - rewrite !sum_cons. ring.
  - by rewrite IH1.
Qed.

Lemma sort_Permutation l : sort l ≡ₚ l.
Proof. apply merge_sort_Permutation. Qed.

Lemma sort_Sorted l : Sorted Qcle (sort l).
Proof. apply (Sorted_merge_sort Qcle). Qed.

(** The ascending arrangement of a list of rationals is unique, so [sort]
    agrees with any sorting procedure, Python's included. *)
Lemma sort_unique l l' : Sorted Qcle l' -> l' ≡ₚ l -> l' = sort l.
Proof.
  intros Hs Hp. apply (Sorted_unique Qcle); [done|apply sort_Sorted|].
  by rewrite sort_Permutation.
Qed.

Lemma sum_sort l : sum (sort l) = sum l.
Proof. apply sum_Permutation, sort_Permutation. Qed.

Lemma Qc_of_nat_nonzero (n : nat) : (0 < n)%nat -> Qc_of_Z (Z.of_nat n) <> 0%Qc.
Proof.
  intros Hn Heq. rewrite <- Z2Qc_inj_0 in Heq. apply Z2Qc_inj in Heq. lia.
Qed.

Lemma e9_nonzero : e9 <> 0%Qc.
Proof. by_eval. Qed.

Lemma e12_nonzero : e12 <> 0%Qc.
Proof. by_eval. Qed.

Lemma e12_e9 : e12 = (Qc_of_Z 1000 * e9)%Qc.
Proof. by_eval. Qed.


(** ** What print_perf_stats does, case by case *)

Lemma bandwidth_as_computed (p : Z) (avg : Qc) :
  avg <> 0%Qc ->
  (1 / avg * Qc_of_Z p * Qc_of_Z 2 / e9)%Qc = bandwidth p 2 avg.
Proof.
  intros Ha. unfold bandwidth. pose proof e9_nonzero. field. by split.
Qed.

Lemma flops_as_computed (p bs : Z) (avg : Qc) :
  avg <> 0%Qc ->
  (1 / avg * Qc_of_Z p * Qc_of_Z 2 * Qc_of_Z bs / e12)%Qc
  = (bandwidth p 2 avg * Qc_of_Z bs / Qc_of_Z 1000)%Qc.
Proof.
  intros Ha. unfold bandwidth. rewrite e12_e9.
  pose proof e9_nonzero.
  assert (Qc_of_Z 1000 <> 0%Qc) by by_eval.
  field. by repeat split.
Qed.

Lemma print_perf_stats_outcome l cfg bs w s :
  print_perf_stats l cfg bs w s = perf_outcome (slice_from l w) cfg bs s.
Proof.
  unfold print_perf_stats, perf_outcome.
  destruct (slice_from l w) as [|x kept] eqn:Hk; [reflexivity|].
  change (0 <? length (x :: kept))%nat with true. cbv iota.
  set (k := x :: kept).
  assert (Hc : Qc_of_Z (Z.of_nat (length k)) <> 0%Qc)
    by (apply Qc_of_nat_nonzero; simpl; lia).
  erewrite bind_ok by (by apply divM_nonzero).
  rewrite sum_sort. fold (mean k).
  destruct (cfg !! "num_hidden_layers") as [nh|] eqn:Hnh.
  2:{ erewrite bind_raise by (by apply getattr_None). reflexivity. }
  erewrite bind_ok by (by apply getattr_Some).
  destruct (cfg !! "hidden_size") as [h|] eqn:Hh.
  2:{ erewrite bind_raise by (by apply getattr_None). reflexivity. }
  erewrite bind_ok by (by apply getattr_Some).
  erewrite bind_ok by (by apply getattr_Some).
  erewrite bind_ok by reflexivity.
  destruct (decide (mean k = 0%Qc)) as [Hz|Hz].
  - rewrite Hz. erewrite bind_raise by apply divM_zero.
    unfold append_events. simpl. by rewrite <- app_assoc.
  - erewrite bind_ok by (by apply divM_nonzero).
    erewrite bind_ok by (apply divM_nonzero, e9_nonzero).
    erewrite bind_ok by reflexivity.
    erewrite bind_ok by (by apply divM_nonzero).
    erewrite bind_ok by (apply divM_nonzero, e12_nonzero).
    rewrite bandwidth_as_computed, flops_as_computed by done.
    unfold print, emit, append_events. simpl.
    by rewrite <- !app_assoc.
Qed.

Lemma printed_outcome l cfg bs w :
  printed l cfg bs w = trace (perf_outcome (slice_from l w) cfg bs (State [] 0)).2.
Proof. unfold printed. by rewrite print_perf_stats_outcome. Qed.

Lemma perf_outcome_frame kept cfg bs s :
  perf_outcome kept cfg bs s
  = ((perf_outcome kept cfg bs (State [] 0)).1,
     append_events s (trace (perf_outcome kept cfg bs (State [] 0)).2)
                     (divs (perf_outcome kept cfg bs (State [] 0)).2)).
Proof.
  unfold perf_outcome, append_events.
  destruct kept as [|x k]; simpl.
  { destruct s; simpl. by rewrite app_nil_r. }
  destruct (cfg !! "num_hidden_layers"), (cfg !! "hidden_size");
    try destruct (decide _); reflexivity.
Qed.

(** ** Claims about print_perf_stats *)




(** C7.  When the list has at most [warmup] elements the routine returns
    normally and leaves the state untouched: nothing is printed and no
    division is evaluated, in particular none by zero. *)
Theorem short_list_prints_nothing l cfg bs w s :
  Z.of_nat (length l) <= w ->
  print_perf_stats l cfg bs w s = (Ok tt, s).
Proof.
  intros Hlen. rewrite print_perf_stats_outcome.
  assert (0 <= w) by lia.
  rewrite slice_from_nonneg by done.
  rewrite drop_ge by lia. reflexivity.
Qed.

Lemma short_list_prints_nothing_witness :
  print_perf_stats [q 5; q 7; q 0] llama_cfg 16 warmup_default (State [] 0)
  = (Ok tt, State [] 0).
Proof.
  apply short_list_prints_nothing. unfold warmup_default. simpl. lia.
Defined.

(** The division by [count] never raises: a ZeroDivisionError can only
    come from [1 / avg] with a zero mean, after the latency line. *)
Lemma zero_division_only_from_zero_mean l cfg bs w s s' :
  print_perf_stats l cfg bs w s = (Raise ZeroDivisionError, s') ->
  slice_from l w <> [] /\ mean (slice_from l w) = 0%Qc.
Proof.
  rewrite print_perf_stats_outcome. unfold perf_outcome.
  destruct (slice_from l w) as [|x k]; [discriminate|].
  destruct (cfg !! "num_hidden_layers"), (cfg !! "hidden_size");
    try destruct (decide _); try discriminate.
  by intros _.
Qed.






(** ** Running the external calls *)

Lemma bind_Ok_inv {A B} (m : M A) (k : A -> M B) s b s' :
  (m ≫= k) s = (Ok b, s') ->
  exists a s1, m s = (Ok a, s1) /\ k a s1 = (Ok b, s').
Proof.
  unfold mbind, M_bind, bind. destruct (m s) as [[a|e] s1]; [eauto|discriminate].
Qed.

Lemma emit_run e s : emit e s = (Ok tt, State (trace s ++ [e]) (divs s)).
Proof. reflexivity. Qed.

Lemma call_run {A} (answer : list event -> result A) e s :
  call answer e s
  = match answer (trace s) with
    | Ok a => (Ok a, State (trace s ++ [e]) (divs s))
    | Raise x => (Raise x, State (trace s ++ [e; EvRaised x]) (divs s))
    end.
Proof.
  unfold call, external. erewrite bind_ok by apply emit_run.
  destruct (answer (trace s)); [reflexivity|].
  unfold raise. simpl. by rewrite <- app_assoc.
Qed.

Lemma call_Ok_inv {A} (answer : list event -> result A) e s a s' :
  call answer e s = (Ok a, s') ->
  answer (trace s) = Ok a /\ s' = State (trace s ++ [e]) (divs s).
Proof. rewrite call_run. destruct (answer (trace s)); naive_solver. Qed.

Lemma time_time_run w s :
  time_time w s
  = (Ok (time w (trace s)),
     State (trace s ++ [EvTime (time w (trace s))]) (divs s)).
Proof. reflexivity. Qed.

Lemma timed_generate_Ok w mnt s t0 t1 o s' :
  timed_generate w mnt s = (Ok (t0, t1, o), s') ->
  s' = State (trace s ++ [EvSync; EvTime t0; EvGenerate mnt; EvSync; EvTime t1])
             (divs s) /\
  answered w mnt (trace s) (Iteration t0 t1 o).
Proof.
  unfold timed_generate, cuda_synchronize, engine_generate. intros H.
  apply bind_Ok_inv in H as ([] & s1 & H1 & H).
  apply call_Ok_inv in H1 as [_ ->].
  apply bind_Ok_inv in H as (t0' & s2 & H2 & H).
  rewrite time_time_run in H2. injection H2 as <- <-.
  apply bind_Ok_inv in H as (o' & s3 & H3 & H).
  apply call_Ok_inv in H3 as [Hgen ->].
  apply bind_Ok_inv in H as ([] & s4 & H4 & H).
  apply call_Ok_inv in H4 as [_ ->].
  apply bind_Ok_inv in H as (t1' & s5 & H5 & H).
  rewrite time_time_run in H5. injection H5 as <- <-.
  injection H as <- <- <- <-. simpl in *.
  rewrite <- !app_assoc in *. simpl in *. done.
Qed.

Lemma record_sample_run mil times t0 t1 o s :
  record_sample mil times t0 t1 o s
  = if decide (o.2 = mil) then
      (Raise ZeroDivisionError,
       State (trace s ++ [EvPrint (GenerationTime (t1 - t0)%Qc);
                          EvRaised ZeroDivisionError]) (S (divs s)))
    else
      (Ok (times ++ [((t1 - t0) / Qc_of_Z (o.2 - mil))%Qc]),
       State (trace s ++ [EvPrint (GenerationTime (t1 - t0)%Qc)]) (S (divs s))).
Proof.
  unfold record_sample, print. erewrite bind_ok by apply emit_run.
  destruct (decide (o.2 = mil)) as [->|Hne].
  - rewrite Z.sub_diag, Z2Qc_inj_0.
    erewrite bind_raise by apply divM_zero. simpl. by rewrite <- app_assoc.
  - assert (Qc_of_Z (o.2 - mil) <> 0%Qc) as Hd.
    { rewrite <- Z2Qc_inj_0. intros Heq%Z2Qc_inj. lia. }
    erewrite bind_ok by (by apply divM_nonzero). reflexivity.
Qed.

Lemma timing_loop_Ok w mil mnt n times outs s times' outs' s' :
  timing_loop w mil mnt n times outs s = (Ok (times', outs'), s') ->
  exists its,
    length its = n /\
    iterations_of w mnt (trace s) its /\
    Forall (fun it => (it_outputs it).2 <> mil) its /\
    times' = times ++ (iteration_sample mil <$> its) /\
    outs' = match last its with
            | Some it => Some (it_outputs it)
            | None => outs
            end /\
    trace s' = trace s ++ concat (iteration_events mnt <$> its) /\
    divs s' = (n + divs s)%nat.
Proof.
  revert times outs s.
  induction n as [|n IH]; intros times outs s H; simpl in H.
  - injection H as <- <- <-. exists []. simpl.
    rewrite !app_nil_r. repeat split; done.
  - apply bind_Ok_inv in H as ([[t0 t1] o] & s1 & H1 & H).
    apply timed_generate_Ok in H1 as [-> Hans].
    apply bind_Ok_inv in H as (times1 & s2 & H2 & H).
    rewrite record_sample_run in H2.
    destruct (decide (o.2 = mil)) as [|Hne]; [discriminate|].
    injection H2 as <- <-.
    apply IH in H as (its & Hlen & Hits & Hall & -> & -> & Htr & Hdiv).
    simpl in Htr, Hdiv, Hits.
    exists (Iteration t0 t1 o :: its). simpl.
    split; [by rewrite Hlen|]. split.
    { split; [done|]. by rewrite <- !app_assoc in Hits. }
    split; [by constructor|].
    split; [by rewrite <- app_assoc|].
    split.
    { destruct its as [|it its']; [reflexivity|].
      change (last (Iteration t0 t1 o :: it :: its')) with (last (it :: its')).
      destruct (last (it :: its')) eqn:E; [done|].
      by apply last_None in E. }
    split; [|lia].
    rewrite Htr. by rewrite <- !app_assoc.
Qed.

Lemma print_perf_stats_frame l cfg bs w s :
  print_perf_stats l cfg bs w s
  = ((print_perf_stats l cfg bs w (State [] 0)).1,
     append_events s (printed l cfg bs w)
                     (divs (print_perf_stats l cfg bs w (State [] 0)).2)).
Proof.
  unfold printed. rewrite !print_perf_stats_outcome.
  apply perf_outcome_frame.
Qed.

Lemma with_ctx_run {A} enter exit (body : M A) s :
  with_ctx enter exit body s
  = let '(r, s1) := body (State (trace s ++ [enter]) (divs s)) in
    (r, State (trace s1 ++ [exit]) (divs s1)).
Proof. unfold with_ctx. erewrite bind_ok by apply emit_run. reflexivity. Qed.

Lemma with_ctx_Ok_inv {A} enter exit (body : M A) s a s' :
  with_ctx enter exit body s = (Ok a, s') ->
  exists s1, body (State (trace s ++ [enter]) (divs s)) = (Ok a, s1) /\
             s' = State (trace s1 ++ [exit]) (divs s1).
Proof.
  rewrite with_ctx_run.
  destruct (body _) as [r s1]. intros [= -> <-]. eauto.
Qed.

Lemma run_llama_test_Ok w a s s' :
  run_llama_test w a s = (Ok tt, s') ->
  exists cfg its it_last,
    length its = iters /\
    last its = Some it_last /\
    iterations_of w (output_len a) (trace s ++ setup_events a) its /\
    Forall (fun it => (it_outputs it).2 <> input_len a) its /\
    trace s' = trace s ++ run_events a cfg its (it_outputs it_last).
Proof.
  unfold run_llama_test, cuda_synchronize, engine_generate. intros H.
  apply bind_Ok_inv in H as ([] & s1 & H1 & H).
  apply call_Ok_inv in H1 as [_ ->].
  apply bind_Ok_inv in H as (cfg & s2 & H2 & H).
  apply call_Ok_inv in H2 as [_ ->].
  apply bind_Ok_inv in H as ([] & s3 & H3 & H).
  apply call_Ok_inv in H3 as [_ ->].
  apply bind_Ok_inv in H as ([] & s4 & H4 & H).
  apply call_Ok_inv in H4 as [_ ->].
  apply bind_Ok_inv in H as ([times outs] & s5 & H5 & H).
  apply timing_loop_Ok in H5 as (its & Hlen & Hits & Hall & Htimes & Houts & Htr & _).
  simpl in Htimes, Htr, Hits. subst times.
  apply bind_Ok_inv in H as (o & s6 & H6 & H).
  destruct (last its) as [it_last|] eqn:Hlast; subst outs; simpl in H6;
    [|discriminate].
  injection H6 as <- <-.
  apply bind_Ok_inv in H as ([] & s7 & H7 & H).
  injection H7 as <-.
  apply bind_Ok_inv in H as ([] & s8 & H8 & H).
  rewrite print_perf_stats_frame in H8. injection H8 as _ <-.
  apply bind_Ok_inv in H as ([] & s9 & H9 & H).
  apply with_ctx_Ok_inv in H9 as (s10 & H9 & ->).
  apply with_ctx_Ok_inv in H9 as (s11 & H9 & ->).
  apply bind_Ok_inv in H9 as ([] & s12 & H12 & H9).
  apply call_Ok_inv in H12 as [_ ->].
  apply bind_Ok_inv in H9 as (o' & s13 & H13 & H9).
  apply call_Ok_inv in H13 as [_ ->].
  apply call_Ok_inv in H9 as [_ ->].
  apply bind_Ok_inv in H as ([] & s14 & H14 & H).
  apply call_Ok_inv in H14 as [_ ->].
  injection H as <-.
  exists cfg, its, it_last.
  split; [done|]. split; [done|].
  split. { unfold setup_events. by rewrite <- !app_assoc in Hits. }
  split; [done|].
  unfold run_events, setup_events, profiled_events, append_events. simpl.
  rewrite Htr. by rewrite <- !app_assoc.
Qed.

(** ** Behaviour on every path, failing ones included *)

Lemma count_generate_app tr1 tr2 :
  count_generate (tr1 ++ tr2) = (count_generate tr1 + count_generate tr2)%nat.
Proof. unfold count_generate. by rewrite filter_app, length_app. Qed.

Lemma count_generate_none tr :
  Forall (fun e => is_generate e = false) tr -> count_generate tr = 0%nat.
Proof.
  unfold count_generate. induction 1 as [|e tr He _ IH]; [reflexivity|].
  rewrite filter_cons_False by (rewrite He; discriminate). exact IH.
Qed.

Lemma uncaught_Ok_app {A B} (a : A) (r : result B) evs1 evs2 :
  uncaught (Ok a) evs1 -> uncaught r evs2 -> uncaught r (evs1 ++ evs2).
Proof.
  simpl. intros H1 H2. destruct r as [b|x]; simpl in *.
  - by apply Forall_app.
  - destruct H2 as (pre & post & -> & Hpre & Hpost).
    exists (evs1 ++ pre), post. rewrite <- app_assoc.
    split; [done|]. split; [by apply Forall_app|done].
Qed.

Section well_behaved.
Context {A B : Type}.

Lemma wb_weaken n n' (m : M A) :
  (n <= n')%nat -> well_behaved n m -> well_behaved n' m.
Proof.
  intros Hn Hm s. destruct (Hm s) as (evs & ? & ? & ?).
  exists evs. repeat split; [done..|lia].
Qed.

Lemma wb_ret (a : A) : well_behaved 0 (mret a : M A).
Proof.
  intros s. exists []. simpl. rewrite app_nil_r.
  repeat split; [constructor|done].
Qed.

Lemma wb_raise e : well_behaved 0 (raise e : M A).
Proof.
  intros s. exists [EvRaised e]. simpl. split; [done|]. split; [|done].
  exists [], []. repeat split; constructor.
Qed.

Lemma wb_bind n k (m : M A) (f : A -> M B) :
  well_behaved n m -> (forall a, well_behaved k (f a)) ->
  well_behaved (n + k) (m ≫= f).
Proof.
  intros Hm Hf s. destruct (Hm s) as (evs1 & Ht1 & Hu1 & Hc1).
  unfold mbind, M_bind, bind.
  destruct (m s) as [[a|e] s1]; simpl in *.
  - destruct (Hf a s1) as (evs2 & Ht2 & Hu2 & Hc2).
    exists (evs1 ++ evs2). rewrite Ht2, Ht1, app_assoc.
    split; [done|]. split.
    + by apply (uncaught_Ok_app a).
    + rewrite count_generate_app. lia.
  - exists evs1. repeat split; [done..|lia].
Qed.

Lemma wb_call (answer : list event -> result A) e :
  is_raised e = false ->
  well_behaved (count_generate [e]) (call answer e).
Proof.
  intros He s. rewrite call_run.
  destruct (answer (trace s)) as [a|x]; simpl.
  - exists [e]. repeat split; [|done]. by repeat constructor.
  - exists [e; EvRaised x]. split; [done|]. split.
    + exists [e], []. repeat split; by repeat constructor.
    + change [e; EvRaised x] with ([e] ++ [EvRaised x]).
      rewrite count_generate_app.
      rewrite (count_generate_none [EvRaised x]) by (by repeat constructor).
      lia.
Qed.

Lemma wb_with_ctx n enter exit (body : M A) :
  is_raised enter = false -> is_generate enter = false ->
  is_exit exit = true ->
  well_behaved n body -> well_behaved n (with_ctx enter exit body).
Proof.
  intros He1 He2 Hx Hb s. rewrite with_ctx_run.
  destruct (Hb (State (trace s ++ [enter]) (divs s)))
    as (evs & Ht & Hu & Hc).
  destruct (body _) as [r s1]; simpl in *.
  assert (is_raised exit = false /\ is_generate exit = false) as [Hx1 Hx2]
    by (by destruct exit).
  exists ([enter] ++ evs ++ [exit]).
  rewrite Ht, <- !app_assoc. split; [done|]. split.
  - destruct r as [a|x]; simpl in *.
    + constructor; [done|].
      apply Forall_app; split; [done|by repeat constructor].
    + destruct Hu as (pre & post & -> & Hpre & Hpost).
      exists (enter :: pre), (post ++ [exit]).
      rewrite <- !app_assoc. simpl.
      split; [done|]. split; [by constructor|].
      apply Forall_app; split; [done|by repeat constructor].
  - rewrite !count_generate_app.
    rewrite (count_generate_none [enter]) by (by repeat constructor).
    rewrite (count_generate_none [exit]) by (by repeat constructor).
    lia.
Qed.
End well_behaved.

Lemma wb_emit e :
  is_raised e = false -> is_generate e = false -> well_behaved 0 (emit e).
Proof.
  intros H1 H2 s. exists [e]. simpl. repeat split.
  - by repeat constructor.
  - rewrite count_generate_none by (by repeat constructor). done.
Qed.

Lemma wb_time_time w : well_behaved 0 (time_time w).
Proof.
  intros s. rewrite time_time_run. simpl.
  exists [EvTime (time w (trace s))]. repeat split; [|done].
  by repeat constructor.
Qed.

Lemma wb_divM a b : well_behaved 0 (divM a b).
Proof.
  intros s. unfold divM. destruct (decide (b = 0%Qc)); simpl.
  - exists [EvRaised ZeroDivisionError]. repeat split; [|done].
    exists [], []. repeat split; constructor.
  - exists []. rewrite app_nil_r. repeat split; [constructor|done].
Qed.

Lemma wb_print_perf_stats l cfg bs w :
  well_behaved 0 (print_perf_stats l cfg bs w).
Proof.
  intros s. rewrite print_perf_stats_outcome. unfold perf_outcome.
  destruct (slice_from l w) as [|x k].
  { exists []. simpl. rewrite app_nil_r. repeat split; [constructor|done]. }
  destruct (cfg !! "num_hidden_layers"), (cfg !! "hidden_size");
    try destruct (decide _); simpl;
    eexists; (split; [reflexivity|]); (split; [|done]);
    try (by repeat constructor);
    try (by (eexists [], []; repeat split; repeat constructor));
    by (eexists [_], []; repeat split; repeat constructor).
Qed.

Ltac wb_step :=
  first
    [ apply wb_ret | apply wb_raise | apply wb_time_time | apply wb_divM
    | apply wb_print_perf_stats
    | apply wb_emit; reflexivity
    | apply wb_call; reflexivity
    | apply wb_with_ctx; [reflexivity..|]
    | eapply wb_bind; [|intros ?] ].

Lemma wb_timed_generate w mnt : well_behaved 1 (timed_generate w mnt).
Proof.
  unfold timed_generate, cuda_synchronize, engine_generate.
  eapply wb_weaken; cycle 1; [repeat wb_step|].
  rewrite !count_generate_none by (by repeat constructor).
  unfold count_generate. simpl. lia.
Qed.

Lemma wb_record_sample mil times t0 t1 o :
  well_behaved 0 (record_sample mil times t0 t1 o).
Proof.
  unfold record_sample, print.
  eapply wb_weaken; cycle 1; [repeat wb_step|]. lia.
Qed.

Lemma wb_timing_loop w mil mnt n times outs :
  well_behaved n (timing_loop w mil mnt n times outs).
Proof.
  revert times outs. induction n as [|n IH]; intros times outs; simpl.
  - apply wb_ret.
  - eapply wb_weaken; cycle 1.
    + eapply wb_bind; [apply wb_timed_generate|]. intros [[t0 t1] o].
      eapply wb_bind; [apply wb_record_sample|]. intros times'. apply IH.
    + lia.
Qed.

Lemma wb_run_llama_test w a : well_behaved 11 (run_llama_test w a).
Proof.
  unfold run_llama_test, cuda_synchronize, engine_generate, print.
  eapply wb_weaken; cycle 1.
  - eapply wb_bind; [wb_step|]. intros _.
    eapply wb_bind; [wb_step|]. intros cfg.
    eapply wb_bind; [wb_step|]. intros _.
    eapply wb_bind; [wb_step|]. intros _.
    eapply wb_bind; [apply wb_timing_loop|]. intros [times outs].
    eapply (wb_bind 0).
    { destruct outs; simpl; [apply wb_ret|apply wb_raise]. }
    intros o. repeat wb_step.
  - rewrite !count_generate_none by (by repeat constructor).
    unfold count_generate, iters. simpl. lia.
Qed.

Lemma wb_check_llama w rank ws port a :
  well_behaved 11 (check_llama w rank ws port a).
Proof.
  unfold check_llama.
  eapply wb_weaken; cycle 1.
  - eapply wb_bind; [wb_step|]. intros _. apply wb_run_llama_test.
  - rewrite !count_generate_none by (by repeat constructor). lia.
Qed.

(** ** Runs in a cooperative world return *)

Lemma sum_pos l : Forall (fun x => (0 < x)%Qc) l -> l <> [] -> (0 < sum l)%Qc.
Proof.
  induction 1 as [|x l Hx Hl IH]; [done|]. intros _.
  rewrite sum_cons. destruct l as [|y l].
  - unfold sum. simpl. by rewrite Qcplus_0_r.
  - apply Qcplus_pos_pos; [done|]. by apply IH.
Qed.

Lemma mean_pos l : Forall (fun x => (0 < x)%Qc) l -> l <> [] -> (0 < mean l)%Qc.
Proof.
  intros Hl Hne. unfold mean, Qcdiv.
  apply Qcmult_pos_pos; [by apply sum_pos|].
  apply Qcinv_pos. rewrite <- Z2Qc_inj_0. apply (proj1 (Z2Qc_inj_lt _ _)).
  destruct l; [done|]. cbn [length]. lia.
Qed.

Lemma sample_pos t0 t1 (d : Z) :
  (t0 < t1)%Qc -> 0 < d -> (0 < (t1 - t0) / Qc_of_Z d)%Qc.
Proof.
  intros Ht Hd. unfold Qcdiv. apply Qcmult_pos_pos.
  - unfold Qcminus. by apply (proj1 (Qclt_minus_iff _ _)).
  - apply Qcinv_pos. rewrite <- Z2Qc_inj_0. by apply (proj1 (Z2Qc_inj_lt _ _)).
Qed.

Lemma bind_call_Ok {A B} (answer : list event -> result A) e
    (k : A -> M B) s x :
  answer (trace s) = Ok x ->
  (call answer e ≫= k) s = k x (State (trace s ++ [e]) (divs s)).
Proof. intros H. apply bind_ok. by rewrite call_run, H. Qed.

Lemma bind_time_time {B} w (k : Qc -> M B) s :
  (time_time w ≫= k) s
  = k (time w (trace s))
      (State (trace s ++ [EvTime (time w (trace s))]) (divs s)).
Proof. by apply bind_ok. Qed.

Lemma print_perf_stats_returns times cfg bs s :
  Forall (fun x => (0 < x)%Qc) times ->
  is_Some (cfg !! "num_hidden_layers") -> is_Some (cfg !! "hidden_size") ->
  warmup_default < Z.of_nat (length times) ->
  exists s', print_perf_stats times cfg bs warmup_default s = (Ok tt, s').
Proof.
  intros Hpos [nh Hnh] [h Hh] Hlen.
  rewrite print_perf_stats_outcome. unfold perf_outcome.
  rewrite slice_from_nonneg by (unfold warmup_default; lia).
  destruct (drop (Z.to_nat warmup_default) times) as [|x k] eqn:Hk.
  { apply (f_equal length) in Hk. rewrite length_drop in Hk.
    unfold warmup_default in *. simpl in Hk. lia. }
  rewrite Hnh, Hh.
  destruct (decide (mean (x :: k) = 0%Qc)) as [Hz|]; [|by eexists].
  exfalso. assert (0 < mean (x :: k))%Qc as Hm.
  { apply mean_pos; [|done]. rewrite <- Hk. by apply Forall_drop. }
  rewrite Hz in Hm. by apply Qclt_not_eq in Hm.
Qed.

Section cooperative.
Context (w : world) (a : args) (Hw : cooperative w a).

Lemma timed_generate_cooperative mnt s :
  exists t0 t1 o s',
    timed_generate w mnt s = (Ok (t0, t1, o), s') /\
    (t0 < t1)%Qc /\ input_len a < o.2.
Proof.
  destruct Hw as (_ & _ & _ & _ & Hsync & Hgen & _ & Htime).
  unfold timed_generate, cuda_synchronize, engine_generate.
  rewrite (bind_call_Ok _ _ _ s tt) by apply Hsync. cbv beta.
  rewrite bind_time_time. cbv beta. cbn [trace divs].
  set (t0 := time w (trace s ++ [EvSync])).
  destruct (Hgen ((trace s ++ [EvSync]) ++ [EvTime t0]) mnt)
    as (o & Ho & Hlen).
  rewrite (bind_call_Ok _ _ _ _ o) by exact Ho. cbv beta. cbn [trace divs].
  rewrite (bind_call_Ok _ _ _ _ tt) by apply Hsync. cbv beta.
  rewrite bind_time_time. cbv beta. cbn [trace divs].
  eexists _, _, o, _. split; [reflexivity|]. split; [|done].
  subst t0. rewrite <- !app_assoc. rewrite (app_assoc (trace s) [EvSync]).
  by apply Htime.
Qed.

Lemma timing_loop_cooperative n times outs s :
  Forall (fun x => (0 < x)%Qc) times ->
  exists times' outs' s',
    timing_loop w (input_len a) (output_len a) n times outs s
      = (Ok (times', outs'), s') /\
    Forall (fun x => (0 < x)%Qc) times' /\
    length times' = (length times + n)%nat /\
    (is_Some outs \/ (0 < n)%nat -> is_Some outs').
Proof.
  revert times outs s. induction n as [|n IH]; intros times outs s Hpos.
  - eexists _, _, _. split; [reflexivity|]. split; [done|].
    split; [lia|]. intros [?|?]; [done|lia].
  - destruct (timed_generate_cooperative (output_len a) s)
      as (t0 & t1 & o & s1 & Hrun & Hlt & Hlen).
    cbn [timing_loop].
    erewrite bind_ok by exact Hrun. cbv beta iota.
    erewrite bind_ok.
    2:{ rewrite record_sample_run.
        destruct (decide (o.2 = input_len a)); [lia|reflexivity]. }
    cbv beta.
    edestruct IH as (times' & outs' & s' & Hloop & Hpos' & Hlen' & Hsome).
    2:{ rewrite Hloop. eexists _, _, _. split; [reflexivity|].
        split; [done|]. rewrite Hlen', length_app. simpl.
        split; [lia|]. intros _. apply Hsome. left. by eexists. }
    apply Forall_app. split; [done|]. constructor; [|constructor].
    apply sample_pos; [done|lia].
Qed.

Lemma run_llama_test_cooperative s : (run_llama_test w a s).1 = Ok tt.
Proof.
  destruct Hw as (Htok & Hmodel & Hengine & Hinputs & Hsync & Hgen & Htable & _).
  unfold run_llama_test, cuda_synchronize, engine_generate.
  rewrite (bind_call_Ok _ _ _ s tt) by apply Htok. cbv beta. cbn [trace divs].
  destruct (Hmodel (trace s ++ [EvTokenizer (path a)]) (path a))
    as (cfg & Hcfg & [nh Hnh] & [h Hh]).
  rewrite (bind_call_Ok _ _ _ _ cfg) by exact Hcfg. cbv beta.
  rewrite (bind_call_Ok _ _ _ _ tt) by apply Hengine. cbv beta.
  rewrite (bind_call_Ok _ _ _ _ tt) by apply Hinputs. cbv beta.
  edestruct (timing_loop_cooperative iters [] None)
    as (times & outs & s1 & Hloop & Hpos & Hlen & Hsome); [constructor|].
  erewrite bind_ok by exact Hloop. cbv beta iota.
  destruct Hsome as [o ->]; [right; unfold iters; lia|].
  erewrite bind_ok by reflexivity. cbv beta.
  erewrite bind_ok by reflexivity. cbv beta.
  match goal with
  | |- context [(print_perf_stats ?l ?c ?b ?wu ≫= ?k) ?st] =>
      destruct (print_perf_stats_returns l c b st) as [s2 Hstats];
        [done|by eexists|by eexists| |];
        [|rewrite (bind_ok _ k st tt s2 Hstats)]
  end.
  { rewrite Hlen. unfold iters, warmup_default. simpl. lia. }
  cbv beta.
  erewrite bind_ok.
  2:{ rewrite !with_ctx_run.
      rewrite (bind_call_Ok _ _ _ _ tt) by apply Hsync. cbv beta.
      match goal with
      | |- context [(call (fun h => generate w h ?m) ?e ≫= ?k) ?st] =>
          destruct (Hgen (trace st) m) as (o' & Ho' & _);
          rewrite (bind_call_Ok _ e k st o') by exact Ho'
      end.
      rewrite call_run, Hsync. reflexivity. }
  cbv beta. rewrite (bind_call_Ok _ _ _ _ tt) by apply Htable. reflexivity.
Qed.
End cooperative.

Lemma quiet_world_cooperative cfg bs a new_tokens :
  is_Some (cfg !! "num_hidden_layers") -> is_Some (cfg !! "hidden_size") ->
  0 < new_tokens ->
  cooperative (quiet_world cfg bs (input_len a) new_tokens) a.
Proof.
  intros Hnh Hh Hnew. repeat split; simpl; try done.
  - intros _ _. by exists cfg.
  - intros _ _. eexists. split; [reflexivity|]. simpl. lia.
  - intros h evs Hne. apply (proj1 (Z2Qc_inj_lt _ _)). rewrite length_app.
    destruct evs; [done|]. simpl. lia.
Qed.

(** ** Claims about run_llama_test *)

Lemma count_generate_iterations m its :
  count_generate (concat (iteration_events m <$> its)) = length its.
Proof.
  induction its as [|it its IH]; [reflexivity|].
  change (concat (iteration_events m <$> it :: its))
    with (iteration_events m it ++ concat (iteration_events m <$> its)).
  rewrite count_generate_app, IH. reflexivity.
Qed.

Lemma printed_quiet l cfg bs w :
  count_generate (printed l cfg bs w) = 0%nat /\
  Forall (fun e => is_sync e = false /\ is_generate e = false
                   /\ is_time e = false) (printed l cfg bs w).
Proof.
  rewrite printed_outcome. unfold perf_outcome.
  destruct (slice_from l w) as [|x k]; [by split|].
  destruct (cfg !! "num_hidden_layers"), (cfg !! "hidden_size");
    try destruct (decide _); simpl; split;
    first [reflexivity | by repeat constructor].
Qed.

Lemma count_generate_run_events a cfg its o :
  count_generate (run_events a cfg its o) = (length its + 1)%nat.
Proof.
  unfold run_events. rewrite !count_generate_app.
  rewrite count_generate_iterations.
  rewrite (proj1 (printed_quiet _ _ _ _)). reflexivity.
Qed.

(** C5.  The number of generate calls of a run is fixed.  In a world where
    no call fails a run returns; a run that returns has made exactly 11
    generate calls: one in each of the 10 passes of the timing loop, each
    pass appending one sample to the list handed to [print_perf_stats], and
    one more inside the profiler block.  No run makes more than 11. *)
Theorem eleven_generate_calls w a s :
  (cooperative w a -> (run_llama_test w a s).1 = Ok tt) /\
  (exists evs, trace (run_llama_test w a s).2 = trace s ++ evs /\
               (count_generate evs <= 11)%nat) /\
  ((run_llama_test w a s).1 = Ok tt ->
   exists cfg its outputs,
     trace (run_llama_test w a s).2 = trace s ++ run_events a cfg its outputs /\
     length its = 10%nat /\
     length (iteration_sample (input_len a) <$> its) = 10%nat /\
     count_generate (concat (iteration_events (output_len a) <$> its))
       = 10%nat /\
     count_generate (profiled_events (output_len a)) = 1%nat /\
     count_generate (run_events a cfg its outputs) = 11%nat).
Proof.
  split; [|split].
  - intros Hw. by apply run_llama_test_cooperative.
  - destruct (wb_run_llama_test w a s) as (evs & ? & _ & ?). eauto.
  - intros Hok. destruct (run_llama_test w a s) as [r s'] eqn:Hrun.
    simpl in Hok. subst r.
    apply run_llama_test_Ok in Hrun
      as (cfg & its & it_last & Hlen & _ & _ & _ & Htr).
    exists cfg, its, (it_outputs it_last). simpl.
    split; [done|]. split; [done|].
    split; [by rewrite length_fmap|].
    split; [by rewrite count_generate_iterations|].
    split; [reflexivity|].
    rewrite count_generate_run_events, Hlen. reflexivity.
Qed.

Lemma eleven_generate_calls_witness :
  (run_llama_test llama_world default_args (State [] 0)).1 = Ok tt /\
  exists cfg its outputs,
    trace (run_llama_test llama_world default_args (State [] 0)).2
      = [] ++ run_events default_args cfg its outputs /\
    length its = 10%nat /\
    length (iteration_sample (input_len default_args) <$> its) = 10%nat /\
    count_generate (concat (iteration_events (output_len default_args) <$> its))
      = 10%nat /\
    count_generate (profiled_events (output_len default_args)) = 1%nat /\
    count_generate (run_events default_args cfg its outputs) = 11%nat.
Proof.
  pose proof (eleven_generate_calls llama_world default_args (State [] 0))
    as (Hreturns & _ & Hcalls).
  split.
  - apply Hreturns.
    apply (quiet_world_cooperative llama_cfg 16 default_args 128);
      [by eexists|by eexists|lia].
  - apply Hcalls. by_eval.
Defined.

(** C6.  The sample appended by an iteration is the elapsed time
    (end - start) divided by the number of generated tokens
    (out_len - max_input_len), out_len being the second dimension of the
    generate output; the division raises ZeroDivisionError when the two
    lengths are equal.  In a loop that returns, start and end are the clock
    reads made around the generate call of the iteration. *)
Theorem latency_sample w mil mnt :
  (forall times t0 t1 o s,
     o.2 <> mil ->
     (record_sample mil times t0 t1 o s).1
     = Ok (times ++ [((t1 - t0) / Qc_of_Z (o.2 - mil))%Qc])) /\
  (forall times t0 t1 o s,
     o.2 = mil ->
     (record_sample mil times t0 t1 o s).1 = Raise ZeroDivisionError) /\
  (forall n times outs s times' outs' s',
     timing_loop w mil mnt n times outs s = (Ok (times', outs'), s') ->
     exists its,
       length its = n /\
       iterations_of w mnt (trace s) its /\
       Forall (fun it => (it_outputs it).2 <> mil) its /\
       trace s' = trace s ++ concat (iteration_events mnt <$> its) /\
       times' = times ++ (iteration_sample mil <$> its)).
Proof.
  split; [|split].
  - intros times t0 t1 o s Hne. rewrite record_sample_run.
    by destruct (decide (o.2 = mil)).
  - intros times t0 t1 o s Heq. rewrite record_sample_run.
    by destruct (decide (o.2 = mil)).
  - intros n times outs s times' outs' s' H.
    apply timing_loop_Ok in H as (its & ? & ? & ? & ? & ? & ? & ?).
    exists its. done.
Qed.

Lemma latency_sample_witness :
  (record_sample 1024 [] (q 5) (q 8) (16, 1152) (State [] 0)).1
  = Ok ([] ++ [((q 8 - q 5) / Qc_of_Z ((16, 1152).2 - 1024))%Qc]) /\
  (record_sample 1024 [] (q 5) (q 8) (16, 1024) (State [] 0)).1
  = Raise ZeroDivisionError.
Proof.
  split.
  - apply (proj1 (latency_sample llama_world 1024 128)). simpl. lia.
  - apply (proj1 (proj2 (latency_sample llama_world 1024 128))). reflexivity.
Defined.

Lemma bracketing_app n p n' p' tr1 tr2 :
  bracketing n p tr1 -> bracketing n' p' tr2 ->
  bracketing (n + n') (p + p') (tr1 ++ tr2).
Proof.
  intros H1 H2. induction H1; simpl.
  - exact H2.
  - by apply bracketing_other.
  - by apply bracketing_timed.
  - by apply bracketing_profiled.
Qed.

Lemma bracketing_quiet tr :
  Forall (fun e => is_sync e = false /\ is_generate e = false
                   /\ is_time e = false) tr ->
  bracketing 0 0 tr.
Proof.
  induction 1 as [|e tr (? & ? & ?) _ IH]; [constructor|].
  by apply bracketing_other.
Qed.

Lemma bracketing_iterations m its :
  bracketing (length its) 0 (concat (iteration_events m <$> its)).
Proof.
  induction its as [|it its IH]; [constructor|].
  change (concat (iteration_events m <$> it :: its))
    with (iteration_events m it ++ concat (iteration_events m <$> its)).
  unfold iteration_events. simpl.
  apply bracketing_timed. by apply bracketing_other.
Qed.

Lemma bracketing_run_events a cfg its o :
  bracketing (length its) 1 (run_events a cfg its o).
Proof.
  unfold run_events.
  replace (length its) with (0 + (length its + (0 + (0 + (0 + 0)))))%nat by lia.
  change 1%nat with (0 + (0 + (0 + (0 + (1 + 0)))))%nat.
  apply bracketing_app; [by repeat constructor|].
  apply bracketing_app; [apply bracketing_iterations|].
  apply bracketing_app; [by repeat constructor|].
  apply bracketing_app; [apply bracketing_quiet, printed_quiet|].
  apply bracketing_app; by repeat constructor.
Qed.




(** ** Claims about failures *)

Lemma well_behaved_propagates {A} n (m : M A) :
  well_behaved n m -> propagates m.
Proof. intros H s. destruct (H s) as (evs & ? & ? & _). eauto. Qed.

Lemma uncaught_raised {A} (r : result A) evs e :
  uncaught r evs -> EvRaised e ∈ evs -> r = Raise e.
Proof.
  destruct r as [a|x]; simpl.
  - intros Hall Hin. rewrite Forall_forall in Hall.
    by apply Hall in Hin.
  - intros (pre & post & -> & Hpre & Hpost) Hin.
    rewrite Forall_forall in Hpre, Hpost.
    apply elem_of_app in Hin as [Hin|Hin].
    { by apply Hpre in Hin. }
    apply elem_of_cons in Hin as [[= ->]|Hin]; [done|].
    by apply Hpost in Hin.
Qed.

Lemma first_failure_Raise rs e :
  first_failure rs = Raise e ->
  exists i, rs !! i = Some (Raise e) /\
            forall j, (j < i)%nat -> is_ok <$> rs !! j = Some true.
Proof.
  induction rs as [|[[]|x] rs IH]; simpl; [discriminate| |].
  - intros (i & Hi & Hlt)%IH. exists (S i). split; [done|].
    intros [|j] Hj; [done|]. apply Hlt. lia.
  - intros [= ->]. exists 0%nat. split; [done|]. intros j Hj. lia.
Qed.

Lemma first_failure_Ok rs :
  first_failure rs = Ok tt -> Forall (fun r => r = Ok tt) rs.
Proof.
  induction rs as [|[[]|x] rs IH]; simpl; [constructor| |discriminate].
  intros H. constructor; auto.
Qed.

Lemma spawn_Raise worker nprocs e :
  spawn worker nprocs = Raise e ->
  exists rank, 0 <= rank < nprocs /\ worker rank = Raise e.
Proof.
  unfold spawn. intros (i & Hi & _)%first_failure_Raise.
  apply list_lookup_fmap_Some in Hi as (rank & Hw & Hrank).
  apply lookup_seqZ in Hrank as [-> Hlt].
  exists (0 + Z.of_nat i). split; [lia|done].
Qed.

Lemma spawn_Ok worker nprocs rank :
  spawn worker nprocs = Ok tt -> 0 <= rank < nprocs -> worker rank = Ok tt.
Proof.
  unfold spawn. intros Hall%first_failure_Ok Hrank.
  rewrite Forall_fmap, Forall_forall in Hall.
  apply Hall. apply elem_of_seqZ. lia.
Qed.

Lemma rerun_other_failure max_try test attempt e :
  test attempt = Raise e -> e <> AddressInUse ->
  rerun_if_address_is_in_use max_try test attempt = Raise e.
Proof.
  intros H Hne. destruct max_try; simpl; rewrite H; by destruct e.
Qed.

Lemma rerun_success max_try test attempt :
  test attempt = Ok tt ->
  rerun_if_address_is_in_use max_try test attempt = Ok tt.
Proof. intros H. destruct max_try; simpl; by rewrite H. Qed.

Lemma rerun_address_in_use n test attempt :
  test attempt = Raise AddressInUse ->
  rerun_if_address_is_in_use (S n) test attempt
  = rerun_if_address_is_in_use n test (S attempt).
Proof. intros H. simpl. by rewrite H. Qed.



(** ** Claims about the command line *)

Lemma find_argument_Some opt a :
  find_argument opt = Some a ->
  a ∈ parser_arguments /\ opt ∈ option_strings a.
Proof.
  unfold find_argument. intros H. apply find_some in H as [Hin Hb].
  apply bool_decide_eq_true_1 in Hb. split; [|done].
  by apply list_elem_of_In.
Qed.

Lemma find_argument_path opt a :
  find_argument opt = Some a -> dest a = "path" ->
  opt = "-p" \/ opt = "--path".
Proof.
  intros [Hin Hopt]%find_argument_Some Hd.
  unfold parser_arguments in Hin. set_unfold.
  destruct Hin as [->|[->|[->|[->|[->|[]]]]]]; simpl in *;
    try discriminate; set_solver.
Qed.

Lemma find_argument_recognised opt :
  is_Some (find_argument opt) <->
  opt ∈ ["-p"; "--path"; "-tp"; "--tp_size"; "-b"; "--batch_size";
         "--input_len"; "--output_len"].
Proof.
  unfold find_argument, parser_arguments. simpl.
  repeat case_bool_decide; set_unfold; unfold is_Some; naive_solver.
Qed.

Lemma Forall_forall_cons_helper {A} (P : A -> Prop) (x : A) (l : list A) :
  (forall a, a ∈ x :: l -> P a) <-> P x /\ (forall a, a ∈ l -> P a).
Proof. set_solver. Qed.

Lemma defaults_lookup :
  defaults !! "tp_size" = Some (VInt 1) /\
  defaults !! "batch_size" = Some (VInt 16) /\
  defaults !! "input_len" = Some (VInt 1024) /\
  defaults !! "output_len" = Some (VInt 128).
Proof. repeat split; vm_compute; reflexivity. Qed.

Section parse_args_facts.
Variable py_int : string -> option Z.

Lemma convert_Raise t v e :
  convert py_int t v = Raise e -> e = SystemExit 2.
Proof.
  destruct t; simpl; [discriminate|].
  destruct (py_int v); [discriminate|]. by intros [= <-].
Qed.

Lemma consume_Raise av ns seen e :
  consume py_int av ns seen = Raise e -> e = SystemExit 2.
Proof.
  revert ns seen. induction av as [|[opt v] av IH]; intros ns seen; simpl.
  { discriminate. }
  destruct (find_argument opt) as [a|]; [|by intros [= <-]].
  destruct (convert py_int (type_ a) v) as [x|e'] eqn:Hc.
  - apply IH.
  - intros [= <-]. by apply convert_Raise in Hc.
Qed.

Lemma parse_args_Raise av e :
  parse_args py_int av = Raise e -> e = SystemExit 2.
Proof.
  unfold parse_args.
  destruct (consume py_int av defaults []) as [[ns seen]|e'] eqn:Hc.
  - destruct (forallb _ _); [|by intros [= <-]].
    destruct (to_args ns); [discriminate|by intros [= <-]].
  - intros [= <-]. by apply consume_Raise in Hc.
Qed.

(** An option that is not recognised makes parsing fail. *)
Lemma consume_unrecognised av ns seen :
  Exists (fun o => find_argument o.1 = None) av ->
  is_ok (consume py_int av ns seen) = false.
Proof.
  intros Hex. revert ns seen.
  induction Hex as [[opt v] av Hnone|[opt v] av _ IH]; intros ns seen; simpl.
  - simpl in Hnone. by rewrite Hnone.
  - destruct (find_argument opt) as [a|]; [|done].
    destruct (convert py_int (type_ a) v); [apply IH|done].
Qed.

(** The destinations seen are those of the occurrences consumed. *)
Lemma consume_seen av ns seen ns' seen' d :
  consume py_int av ns seen = Ok (ns', seen') ->
  d ∈ seen' <->
  d ∈ seen \/ Exists (fun o => dest <$> find_argument o.1 = Some d) av.
Proof.
  revert ns seen. induction av as [|[opt v] av IH]; intros ns seen; simpl.
  { intros [= <- <-]. rewrite Exists_nil. tauto. }
  destruct (find_argument opt) as [a|] eqn:Hf; [|discriminate].
  destruct (convert py_int (type_ a) v) as [x|]; [|discriminate].
  intros H. rewrite (IH _ _ H), Exists_cons, elem_of_cons. simpl.
  rewrite Hf. simpl. naive_solver.
Qed.

(** A destination no occurrence refers to keeps its value. *)
Lemma consume_untouched av ns seen ns' seen' d :
  consume py_int av ns seen = Ok (ns', seen') ->
  Forall (fun o => dest <$> find_argument o.1 <> Some d) av ->
  ns' !! d = ns !! d.
Proof.
  revert ns seen. induction av as [|[opt v] av IH]; intros ns seen; simpl.
  { by intros [= <- <-]. }
  destruct (find_argument opt) as [a|] eqn:Hf; [|discriminate].
  destruct (convert py_int (type_ a) v) as [x|]; [|discriminate].
  intros H Hall. apply Forall_cons in Hall as [Hd Hall]. simpl in Hd.
  rewrite Hf in Hd. simpl in Hd.
  rewrite (IH _ _ H Hall). apply lookup_insert_ne. congruence.
Qed.

Lemma typed_defaults : typed defaults.
Proof.
  intros a Ha. unfold parser_arguments in Ha. set_unfold.
  destruct Ha as [->|[->|[->|[->|[->|[]]]]]]; reflexivity.
Qed.

Lemma dest_injective a b :
  a ∈ parser_arguments -> b ∈ parser_arguments -> dest a = dest b -> a = b.
Proof.
  unfold parser_arguments. set_unfold.
  intros [->|[->|[->|[->|[->|[]]]]]] [->|[->|[->|[->|[->|[]]]]]];
    simpl; intros; done.
Qed.

Lemma typed_insert ns a v x :
  typed ns -> a ∈ parser_arguments ->
  convert py_int (type_ a) v = Ok x -> typed (<[dest a := x]> ns).
Proof.
  intros Hns Ha Hc b Hb.
  destruct (decide (dest a = dest b)) as [Heq|Hne].
  - apply dest_injective in Heq as <-; [|done..].
    rewrite lookup_insert_eq.
    destruct (type_ a); simpl in Hc; [by injection Hc as <-|].
    destruct (py_int v); [by injection Hc as <-|discriminate].
  - rewrite lookup_insert_ne by done. by apply Hns.
Qed.

Lemma consume_typed av ns seen ns' seen' :
  consume py_int av ns seen = Ok (ns', seen') -> typed ns -> typed ns'.
Proof.
  revert ns seen. induction av as [|[opt v] av IH]; intros ns seen; simpl.
  { by intros [= <- <-]. }
  destruct (find_argument opt) as [a|] eqn:Hf; [|discriminate].
  destruct (convert py_int (type_ a) v) as [x|] eqn:Hc; [|discriminate].
  intros H Hns. apply (IH _ _ H).
  apply find_argument_Some in Hf as [Ha _]. by eapply typed_insert.
Qed.

Lemma consume_total av ns seen :
  Forall (fun o => exists a, find_argument o.1 = Some a /\
                    (type_ a = TInt -> is_Some (py_int o.2))) av ->
  exists ns' seen', consume py_int av ns seen = Ok (ns', seen').
Proof.
  intros Hall. revert ns seen.
  induction Hall as [|[opt v] av (a & Hf & Hint) _ IH]; intros ns seen; simpl.
  { eauto. }
  simpl in Hf, Hint. rewrite Hf.
  destruct (type_ a) eqn:Ht; simpl.
  - apply IH.
  - destruct (Hint eq_refl) as [n ->]. apply IH.
Qed.

Lemma consume_present av ns seen ns' seen' :
  consume py_int av ns seen = Ok (ns', seen') ->
  (forall d, d ∈ seen -> is_Some (ns !! d)) ->
  forall d, d ∈ seen' -> is_Some (ns' !! d).
Proof.
  revert ns seen. induction av as [|[opt v] av IH]; intros ns seen; simpl.
  { by intros [= <- <-]. }
  destruct (find_argument opt) as [a|] eqn:Hf; [|discriminate].
  destruct (convert py_int (type_ a) v) as [x|] eqn:Hc; [|discriminate].
  intros H Hseen. apply (IH _ _ H).
  intros d [->|Hd]%elem_of_cons.
  - rewrite lookup_insert_eq. by eexists.
  - destruct (decide (dest a = d)) as [->|Hne].
    + rewrite lookup_insert_eq. by eexists.
    + rewrite lookup_insert_ne by done. by apply Hseen.
Qed.

Lemma find_argument_dest opt a :
  find_argument opt = Some a ->
  opt ∈ match dest a with
        | "path" => ["-p"; "--path"]
        | "tp_size" => ["-tp"; "--tp_size"]
        | "batch_size" => ["-b"; "--batch_size"]
        | "input_len" => ["--input_len"]
        | "output_len" => ["--output_len"]
        | _ => []
        end%string.
Proof.
  intros [Hin Hopt]%find_argument_Some.
  unfold parser_arguments in Hin. set_unfold.
  by destruct Hin as [->|[->|[->|[->|[->|[]]]]]].
Qed.

Lemma to_args_typed ns :
  typed ns -> is_Some (ns !! "path") -> is_Some (to_args ns).
Proof.
  intros Hns [p Hp].
  assert (forall a, a ∈ parser_arguments ->
            match ns !! dest a with
            | Some (VStr _) => type_ a = TStr
            | Some (VInt _) => type_ a = TInt
            | None => default_ a = None
            end) as H by exact Hns.
  unfold parser_arguments in H.
  rewrite !Forall_forall_cons_helper in H.
  destruct H as (H1 & H2 & H3 & H4 & H5 & _). simpl in *.
  unfold to_args. rewrite Hp in *.
  destruct p as [p|n]; [|discriminate].
  destruct (ns !! "tp_size") as [[?|tp]|]; try discriminate.
  destruct (ns !! "batch_size") as [[?|b]|]; try discriminate.
  destruct (ns !! "input_len") as [[?|i]|]; try discriminate.
  destruct (ns !! "output_len") as [[?|o]|]; try discriminate.
  by eexists.
Qed.
End parse_args_facts.




(** ** Further properties of print_perf_stats *)

(** X1.  The default argument of [getattr] is evaluated before the lookup:
    a config without [num_hidden_layers] makes the routine raise
    AttributeError for that attribute even when it has [num_layers], and a
    config without [hidden_size] raises for [hidden_size]; in both cases
    nothing has been printed. *)
Theorem missing_attribute_raises l cfg bs w s :
  slice_from l w <> [] ->
  (cfg !! "num_hidden_layers" = None ->
   print_perf_stats l cfg bs w s
   = (Raise (AttributeError "num_hidden_layers"),
      State (trace s ++ [EvRaised (AttributeError "num_hidden_layers")])
            (S (divs s)))) /\
  (is_Some (cfg !! "num_hidden_layers") -> cfg !! "hidden_size" = None ->
   print_perf_stats l cfg bs w s
   = (Raise (AttributeError "hidden_size"),
      State (trace s ++ [EvRaised (AttributeError "hidden_size")])
            (S (divs s)))).
Proof.
  intros Hk. rewrite print_perf_stats_outcome. unfold perf_outcome.
  destruct (slice_from l w) as [|x k]; [done|].
  split.
  - by intros ->.
  - intros [nh ->] ->. reflexivity.
Qed.

Lemma missing_attribute_raises_witness :
  print_perf_stats [q 1; q 2; q 3; q 4] glm_cfg 16 warmup_default (State [] 0)
  = (Raise (AttributeError "num_hidden_layers"),
     State ([] ++ [EvRaised (AttributeError "num_hidden_layers")]) 1).
Proof.
  apply (proj1 (missing_attribute_raises [q 1; q 2; q 3; q 4] glm_cfg 16
                  warmup_default (State [] 0) ltac:(discriminate))).
  reflexivity.
Defined.




Lemma Qc_of_nat_S (n : nat) :
  Qc_of_Z (Z.of_nat (S n)) = (1 + Qc_of_Z (Z.of_nat n))%Qc.
Proof. rewrite Nat2Z.inj_succ, <- Z.add_1_l, Z2Qc_inj_add. by rewrite Z2Qc_inj_1. Qed.

Lemma sum_lower (lo : Qc) l :
  Forall (fun x => (lo <= x)%Qc) l ->
  (Qc_of_Z (Z.of_nat (length l)) * lo <= sum l)%Qc.
Proof.
  induction 1 as [|x l Hx _ IH].
  - unfold sum. cbn [fold_left length]. change (Z.of_nat 0) with 0%Z.
    rewrite Z2Qc_inj_0, Qcmult_0_l. apply Qcle_refl.
  - rewrite sum_cons. cbn [length]. rewrite Qc_of_nat_S.
    replace ((1 + Qc_of_Z (Z.of_nat (length l))) * lo)%Qc
      with (lo + Qc_of_Z (Z.of_nat (length l)) * lo)%Qc by ring.
    by apply Qcplus_le_compat.
Qed.

Lemma sum_upper (hi : Qc) l :
  Forall (fun x => (x <= hi)%Qc) l ->
  (sum l <= Qc_of_Z (Z.of_nat (length l)) * hi)%Qc.
Proof.
  induction 1 as [|x l Hx _ IH].
  - unfold sum. cbn [fold_left length]. change (Z.of_nat 0) with 0%Z.
    rewrite Z2Qc_inj_0, Qcmult_0_l. apply Qcle_refl.
  - rewrite sum_cons. cbn [length]. rewrite Qc_of_nat_S.
    replace ((1 + Qc_of_Z (Z.of_nat (length l))) * hi)%Qc
      with (hi + Qc_of_Z (Z.of_nat (length l)) * hi)%Qc by ring.
    by apply Qcplus_le_compat.
Qed.

Lemma Qc_of_nat_pos (n : nat) : (0 < n)%nat -> (0 < Qc_of_Z (Z.of_nat n))%Qc.
Proof.
  intros Hn. rewrite <- Z2Qc_inj_0. apply (proj1 (Z2Qc_inj_lt _ _)). lia.
Qed.

Lemma mean_between (lo hi : Qc) l :
  l <> [] -> Forall (fun x => (lo <= x)%Qc /\ (x <= hi)%Qc) l ->
  (lo <= mean l)%Qc /\ (mean l <= hi)%Qc.
Proof.
  intros Hne Hall.
  assert (0 < Qc_of_Z (Z.of_nat (length l)))%Qc as Hn.
  { apply Qc_of_nat_pos. destruct l; [done|simpl; lia]. }
  assert (Qc_of_Z (Z.of_nat (length l)) <> 0%Qc) as Hn'.
  { intros Heq. rewrite Heq in Hn. by apply Qclt_not_eq in Hn. }
  assert (mean l * Qc_of_Z (Z.of_nat (length l)) = sum l)%Qc as Hm.
  { unfold mean. field. done. }
  split.
  - apply (Qcmult_le_mono_pos_r _ _ _ Hn). rewrite Hm, Qcmult_comm.
    apply sum_lower. eapply Forall_impl; [exact Hall|]. by intros x [? ?].
  - apply (Qcmult_le_mono_pos_r _ _ _ Hn). rewrite Hm.
    rewrite (Qcmult_comm hi). apply sum_upper.
    eapply Forall_impl; [exact Hall|]. by intros x [? ?].
Qed.



(** X5.  Only the multiset of post-warmup samples matters: two lists whose
    post-warmup parts are permutations of each other give the same result,
    the same output and the same number of divisions. *)
Theorem order_of_samples_irrelevant l l' cfg bs w s :
  slice_from l w ≡ₚ slice_from l' w ->
  print_perf_stats l cfg bs w s = print_perf_stats l' cfg bs w s.
Proof.
  intros Hp. rewrite !print_perf_stats_outcome. unfold perf_outcome.
  assert (mean (slice_from l w) = mean (slice_from l' w)) as Hm.
  { unfold mean. by rewrite (sum_Permutation _ _ Hp), (Permutation_length Hp). }
  destruct (slice_from l w) as [|x k], (slice_from l' w) as [|x' k'];
    [reflexivity| | |].
  - by apply Permutation_nil_cons in Hp.
  - symmetry in Hp. by apply Permutation_nil_cons in Hp.
  - by rewrite Hm.
Qed.

Lemma order_of_samples_irrelevant_witness :
  print_perf_stats [q 1; q 2; q 3; q 4; q 6] llama_cfg 16 warmup_default
                   (State [] 0)
  = print_perf_stats [q 7; q 7; q 7; q 6; q 4] llama_cfg 16 warmup_default
                     (State [] 0).
Proof.
  apply order_of_samples_irrelevant. apply perm_swap.
Defined.

(** X6.  A negative warmup counts from the end: the routine then behaves as
    on the last [-w] samples with nothing trimmed, and on the whole list
    when [-w] is at least its length. *)
Theorem negative_warmup_takes_tail l cfg bs w s :
  w < 0 ->
  print_perf_stats l cfg bs w s
  = print_perf_stats (drop (length l - Z.to_nat (- w)) l) cfg bs 0 s /\
  (Z.of_nat (length l) <= - w ->
   print_perf_stats l cfg bs w s = print_perf_stats l cfg bs 0 s).
Proof.
  intros Hw. rewrite !print_perf_stats_outcome.
  rewrite slice_from_neg by done.
  rewrite !(slice_from_nonneg _ 0) by done. simpl. rewrite !drop_0.
  split; [reflexivity|]. intros Hlen.
  replace (length l - Z.to_nat (- w))%nat with 0%nat by lia.
  by rewrite drop_0.
Qed.

Lemma negative_warmup_takes_tail_witness :
  print_perf_stats [q 1; q 2; q 3] llama_cfg 16 (-2) (State [] 0)
  = print_perf_stats (drop (length [q 1; q 2; q 3] - Z.to_nat (- -2))
                           [q 1; q 2; q 3]) llama_cfg 16 0 (State [] 0).
Proof.
  apply (proj1 (negative_warmup_takes_tail [q 1; q 2; q 3] llama_cfg 16 (-2)
                  (State [] 0) ltac:(lia))).
Defined.

Lemma Qcdiv_pos (x y : Qc) : (0 < x)%Qc -> (0 < y)%Qc -> (0 < x / y)%Qc.
Proof.
  intros Hx Hy. unfold Qcdiv. apply Qcmult_pos_pos; [done|by apply Qcinv_pos].
Qed.

Lemma Qc_of_Z_pos (n : Z) : 0 < n -> (0 < Qc_of_Z n)%Qc.
Proof. intros Hn. rewrite <- Z2Qc_inj_0. by apply (proj1 (Z2Qc_inj_lt _ _)). Qed.



Lemma slice_from_fmap {A B} (f : A -> B) (l : list A) (w : Z) :
  slice_from (f <$> l) w = f <$> slice_from l w.
Proof. unfold slice_from. rewrite length_fmap. by destruct (w <? 0); rewrite fmap_drop. Qed.

Lemma sum_scale (c : Qc) l : sum (Qcmult c <$> l) = (c * sum l)%Qc.
Proof.
  induction l as [|x l IH].
  - unfold sum. simpl. ring.
  - rewrite fmap_cons, !sum_cons, IH. ring.
Qed.

Lemma mean_scale (c : Qc) l : mean (Qcmult c <$> l) = (c * mean l)%Qc.
Proof.
  unfold mean. rewrite sum_scale, length_fmap. unfold Qcdiv. ring.
Qed.



(** ** Trace properties that hold on every path *)

Section emits.
Context (Q : list event -> Prop) (ok : event -> bool).
Hypothesis Qnil : Q [].
Hypothesis Qapp : forall evs1 evs2, Q evs1 -> Q evs2 -> Q (evs1 ++ evs2).
Hypothesis Qone : forall e, ok e = true -> Q [e].
Hypothesis ok_raised : forall x, ok (EvRaised x) = true.

Lemma emits_ret {A} (a : A) : emits Q (mret a : M A).
Proof. intros s. exists []. simpl. by rewrite app_nil_r. Qed.

Lemma emits_bind {A B} (m : M A) (k : A -> M B) :
  emits Q m -> (forall a, emits Q (k a)) -> emits Q (m ≫= k).
Proof.
  intros Hm Hk s. destruct (Hm s) as (evs1 & Ht1 & HQ1).
  unfold mbind, M_bind, bind. destruct (m s) as [[a|e] s1]; simpl in *.
  - destruct (Hk a s1) as (evs2 & Ht2 & HQ2).
    exists (evs1 ++ evs2). rewrite Ht2, Ht1, app_assoc. auto.
  - eauto.
Qed.

Lemma emits_emit e : ok e = true -> emits Q (emit e).
Proof. intros He s. exists [e]. auto. Qed.

Lemma emits_raise {A} x : emits Q (raise x : M A).
Proof. intros s. exists [EvRaised x]. auto. Qed.

Lemma emits_call {A} (answer : list event -> result A) e :
  ok e = true -> emits Q (call answer e).
Proof.
  intros He s. rewrite call_run. destruct (answer (trace s)); simpl.
  - exists [e]. auto.
  - exists ([e] ++ [EvRaised e0]). auto.
Qed.

Lemma emits_time_time w :
  (forall t, ok (EvTime t) = true) -> emits Q (time_time w).
Proof. intros Ht s. rewrite time_time_run. simpl. eexists [_]. auto. Qed.

Lemma emits_divM a b : emits Q (divM a b).
Proof.
  intros s. unfold divM. destruct (decide (b = 0%Qc)); simpl.
  - exists [EvRaised ZeroDivisionError]. auto.
  - exists []. by rewrite app_nil_r.
Qed.

Lemma emits_with_ctx {A} enter exit (body : M A) :
  (forall evs, Q evs -> Q (enter :: evs ++ [exit])) ->
  emits Q body -> emits Q (with_ctx enter exit body).
Proof.
  intros Hwrap Hb s. rewrite with_ctx_run.
  destruct (Hb (State (trace s ++ [enter]) (divs s))) as (evs & Ht & HQ).
  destruct (body _) as [r s1]; simpl in *.
  exists (enter :: evs ++ [exit]). rewrite Ht, <- !app_assoc. auto.
Qed.

Lemma emits_print_perf_stats l cfg bs w :
  (forall x, ok (EvPrint x) = true) -> emits Q (print_perf_stats l cfg bs w).
Proof.
  intros Hp s. rewrite print_perf_stats_outcome. unfold perf_outcome.
  destruct (slice_from l w) as [|x k].
  { exists []. simpl. by rewrite app_nil_r. }
  destruct (cfg !! "num_hidden_layers"), (cfg !! "hidden_size");
    try destruct (decide _); simpl; eexists; (split; [reflexivity|]).
  - apply (Qapp [_] [_]); auto.
  - apply (Qapp [_] [_; _]); [auto|]. apply (Qapp [_] [_]); auto.
  - auto.
  - auto.
  - auto.
Qed.

Lemma emits_timed_generate w mnt :
  ok EvSync = true -> (forall t, ok (EvTime t) = true) ->
  ok (EvGenerate mnt) = true -> emits Q (timed_generate w mnt).
Proof.
  intros Hs Ht Hg. unfold timed_generate, cuda_synchronize, engine_generate.
  repeat first [ apply emits_ret | by apply emits_call
               | by apply emits_time_time
               | apply emits_bind; [|intros ?] ].
Qed.

Lemma emits_record_sample mil times t0 t1 o :
  (forall x, ok (EvPrint x) = true) ->
  emits Q (record_sample mil times t0 t1 o).
Proof.
  intros Hp. unfold record_sample, print.
  repeat first [ apply emits_ret | apply emits_divM | by apply emits_emit
               | apply emits_bind; [|intros ?] ].
Qed.

Lemma emits_timing_loop w mil mnt n times outs :
  ok EvSync = true -> (forall t, ok (EvTime t) = true) ->
  ok (EvGenerate mnt) = true -> (forall v, ok (EvPrint (GenerationTime v)) = true) ->
  emits Q (timing_loop w mil mnt n times outs).
Proof.
  intros Hs Ht Hg Hp. revert times outs.
  induction n as [|n IH]; intros times outs; cbn [timing_loop].
  - apply emits_ret.
  - apply emits_bind; [by apply emits_timed_generate|]. intros [[t0 t1] o].
    apply emits_bind; [|intros ?; apply IH].
    unfold record_sample, print.
    repeat first [ apply emits_ret | apply emits_divM | by apply emits_emit
                 | apply emits_bind; [|intros ?] ].
Qed.
End emits.

Lemma count_events_app p tr1 tr2 :
  count_events p (tr1 ++ tr2) = (count_events p tr1 + count_events p tr2)%nat.
Proof. unfold count_events. by rewrite filter_app, length_app. Qed.

Lemma balanced_app evs1 evs2 :
  balanced evs1 -> balanced evs2 -> balanced (evs1 ++ evs2).
Proof. unfold balanced. rewrite !count_events_app. lia. Qed.

Lemma balanced_one e :
  negb (is_enter e || is_exit e) = true -> balanced [e].
Proof. by destruct e. Qed.

Lemma balanced_wrap enter exit evs :
  is_enter enter = true -> is_exit exit = true ->
  balanced evs -> balanced (enter :: evs ++ [exit]).
Proof.
  intros He Hx Hb. change (enter :: evs ++ [exit]) with ([enter] ++ evs ++ [exit]).
  unfold balanced in *. rewrite !count_events_app, Hb.
  destruct enter; try discriminate; destruct exit; try discriminate;
    unfold count_events; simpl; lia.
Qed.

Ltac emits_side Hok :=
  first [eassumption
        | intros; apply Hok; simpl;
          first [done | by rewrite ?bool_decide_eq_true_2]].

Ltac emits_step Hok :=
  first
    [ eapply emits_ret; eassumption
    | eapply emits_call; emits_side Hok
    | eapply emits_time_time; emits_side Hok
    | eapply emits_emit; emits_side Hok
    | eapply emits_raise; emits_side Hok
    | eapply emits_divM; emits_side Hok
    | eapply emits_print_perf_stats; emits_side Hok
    | eapply emits_timing_loop; emits_side Hok
    | eapply emits_with_ctx; [eassumption|]
    | eapply emits_bind; [eassumption| |intros ?] ].

Section emits_run.
Context (Q : list event -> Prop) (ok : event -> bool) (a : args).
Hypothesis Qnil : Q [].
Hypothesis Qapp : forall evs1 evs2, Q evs1 -> Q evs2 -> Q (evs1 ++ evs2).
Hypothesis Qone : forall e, ok e = true -> Q [e].
Hypothesis ok_alphabet :
  forall e, run_alphabet a e = true -> is_enter e = false ->
            is_exit e = false -> ok e = true.
Hypothesis Qprofile :
  forall evs, Q evs -> Q (EvProfileEnter :: evs ++ [EvProfileExit]).
Hypothesis Qrecord :
  forall evs, Q evs ->
              Q (EvRecordEnter "model_inference" :: evs ++ [EvRecordExit]).

Lemma emits_after_statistics w :
  emits Q (with_ctx EvProfileEnter EvProfileExit
             (with_ctx (EvRecordEnter "model_inference") EvRecordExit
                (cuda_synchronize w;;
                 engine_generate w (output_len a);;
                 cuda_synchronize w));;
           call (profiler_table w) EvKeyAverages;;
           print ProfilerTable).
Proof.
  unfold cuda_synchronize, engine_generate, print.
  repeat emits_step ok_alphabet.
Qed.

Lemma emits_run_llama_test w : emits Q (run_llama_test w a).
Proof.
  unfold run_llama_test.
  eapply emits_bind; [eassumption|emits_step ok_alphabet|intros _].
  eapply emits_bind; [eassumption|emits_step ok_alphabet|intros cfg].
  eapply emits_bind; [eassumption|emits_step ok_alphabet|intros _].
  eapply emits_bind; [eassumption|emits_step ok_alphabet|intros _].
  eapply emits_bind; [eassumption|emits_step ok_alphabet|intros [times outs]].
  eapply emits_bind; [eassumption| |intros o].
  { destruct outs; simpl; emits_step ok_alphabet. }
  eapply emits_bind; [eassumption|unfold print; emits_step ok_alphabet|intros _].
  eapply emits_bind; [eassumption|emits_step ok_alphabet|intros _].
  apply emits_after_statistics.
Qed.
End emits_run.

(** ** Further properties of run_llama_test and check_llama *)

Lemma run_llama_test_alphabet w a :
  emits (Forall (fun e => run_alphabet a e = true)) (run_llama_test w a).
Proof.
  apply (emits_run_llama_test _ (run_alphabet a) a).
  - constructor.
  - intros. by apply Forall_app.
  - intros. by repeat constructor.
  - auto.
  - intros evs H. constructor; [done|]. apply Forall_app. by repeat constructor.
  - intros evs H. constructor; [done|]. apply Forall_app. by repeat constructor.
Qed.

(** X9.  A run acts on the command-line values and on nothing else, on
    every path: each generate call asks for [output_len] new tokens, the
    engine is built for the given batch size and lengths with tensor
    parallelism enabled exactly when [tp_size > 1], tokenizer and model are
    loaded from [path], and the run itself never calls the launcher. *)
Theorem run_uses_its_arguments w a s :
  exists evs,
    trace (run_llama_test w a s).2 = trace s ++ evs /\
    (forall m, EvGenerate m ∈ evs -> m = output_len a) /\
    (forall tp bs i o, EvEngine tp bs i o ∈ evs ->
       (tp = true <-> 1 < tp_size a) /\ bs = batch_size a /\
       i = input_len a /\ o = output_len a) /\
    (forall bs i, EvInputs bs i ∈ evs ->
       bs = batch_size a /\ i = input_len a) /\
    (forall p, EvTokenizer p ∈ evs \/ EvModel p ∈ evs -> p = path a) /\
    (forall rank ws port, EvLaunch rank ws port ∉ evs).
Proof.
  destruct (run_llama_test_alphabet w a s) as (evs & Htr & Hall).
  exists evs. split; [done|]. rewrite Forall_forall in Hall.
  split; [|split; [|split; [|split]]].
  - intros m Hin%Hall. simpl in Hin. by apply bool_decide_eq_true_1 in Hin.
  - intros tp bs i o Hin%Hall. simpl in Hin.
    apply bool_decide_eq_true_1 in Hin as (-> & -> & -> & ->).
    split; [apply bool_decide_eq_true|done].
  - intros bs i Hin%Hall. simpl in Hin.
    by apply bool_decide_eq_true_1 in Hin as (-> & ->).
  - intros p [Hin%Hall|Hin%Hall]; simpl in Hin;
      by apply bool_decide_eq_true_1 in Hin.
  - intros rank ws port Hin%Hall. discriminate.
Qed.

(** X10.  On every path, a failing one included, the run leaves as many
    [with] blocks as it entered: an exception inside the profiler block
    still closes the profiler and the record scope. *)
Theorem with_blocks_are_closed w a s :
  exists evs,
    trace (run_llama_test w a s).2 = trace s ++ evs /\ balanced evs.
Proof.
  apply (emits_run_llama_test balanced
           (fun e => negb (is_enter e || is_exit e)) a).
  - reflexivity.
  - apply balanced_app.
  - apply balanced_one.
  - intros e _ -> ->. reflexivity.
  - intros evs. by apply balanced_wrap.
  - intros evs. by apply balanced_wrap.
Qed.

Lemma bind_call_Raise {A B} (answer : list event -> result A) e
    (k : A -> M B) s x :
  answer (trace s) = Raise x ->
  (call answer e ≫= k) s
  = (Raise x, State (trace s ++ [e; EvRaised x]) (divs s)).
Proof. intros H. apply bind_raise. by rewrite call_run, H. Qed.



Lemma lines_app evs1 evs2 : lines (evs1 ++ evs2) = lines evs1 ++ lines evs2.
Proof. apply omap_app. Qed.

Lemma lines_iterations m its :
  lines (concat (iteration_events m <$> its))
  = (fun it => GenerationTime (it_end it - it_start it)%Qc) <$> its.
Proof.
  induction its as [|it its IH]; [reflexivity|].
  change (concat (iteration_events m <$> it :: its))
    with (iteration_events m it ++ concat (iteration_events m <$> its)).
  rewrite lines_app, IH. reflexivity.
Qed.

Lemma printed_without_exception l cfg bs w :
  slice_from l w <> [] ->
  Forall (fun e => is_raised e = false) (printed l cfg bs w) ->
  exists bw fl,
    printed l cfg bs w
    = [EvPrint (AvgLatencyMs (mean (slice_from l w) * Qc_of_Z 1000)%Qc);
       EvPrint (AvgBW bw); EvPrint (AvgFlops fl)].
Proof.
  rewrite printed_outcome. unfold perf_outcome.
  destruct (slice_from l w) as [|x k]; [done|]. intros _.
  destruct (cfg !! "num_hidden_layers"), (cfg !! "hidden_size");
    try destruct (decide _); simpl; intros Hall;
    try (by eexists _, _);
    repeat match goal with
           | H : Forall _ (_ :: _) |- _ => apply Forall_cons in H as [? H]
           end; discriminate.
Qed.



Lemma timed_generate_run w mnt s o :
  (forall h, synchronize w h = Ok tt) ->
  generate w (trace s ++ [EvSync; EvTime (time w (trace s ++ [EvSync]))]) mnt
    = Ok o ->
  exists t0 t1,
    timed_generate w mnt s
    = (Ok (t0, t1, o),
       State (trace s ++ [EvSync; EvTime t0; EvGenerate mnt; EvSync; EvTime t1])
             (divs s)).
Proof.
  intros Hsync Hgen.
  unfold timed_generate, cuda_synchronize, engine_generate.
  rewrite (bind_call_Ok _ _ _ s tt) by apply Hsync. cbv beta.
  rewrite bind_time_time. cbv beta. cbn [trace divs].
  rewrite (bind_call_Ok _ _ _ _ o)
    by (cbn [trace]; rewrite <- app_assoc; exact Hgen).
  cbv beta. cbn [trace divs].
  rewrite (bind_call_Ok _ _ _ _ tt) by apply Hsync. cbv beta.
  rewrite bind_time_time. cbv beta. cbn [trace divs].
  eexists _, _. unfold mret, M_ret, ret. rewrite <- !app_assoc. reflexivity.
Qed.



(** X14.  A model that cannot be loaded ends the run at once: when the
    tokenizer or the model fails to load from [path], that failure is the
    result, and no engine has been built, no barrier passed and no generate
    call made. *)
Theorem load_failure_ends_run w a s e :
  (tokenizer_from_pretrained w (trace s) (path a) = Raise e ->
   run_llama_test w a s
   = (Raise e,
      State (trace s ++ [EvTokenizer (path a); EvRaised e]) (divs s))) /\
  (tokenizer_from_pretrained w (trace s) (path a) = Ok tt ->
   model_from_pretrained w (trace s ++ [EvTokenizer (path a)]) (path a)
     = Raise e ->
   run_llama_test w a s
   = (Raise e,
      State (trace s ++ [EvTokenizer (path a); EvModel (path a); EvRaised e])
            (divs s))).
Proof.
  unfold run_llama_test. split.
  - intros Ht. by rewrite (bind_call_Raise _ _ _ s e) by exact Ht.
  - intros Ht Hm.
    rewrite (bind_call_Ok _ _ _ s tt) by exact Ht. cbv beta.
    rewrite (bind_call_Raise _ _ _ _ e) by exact Hm.
    cbn [trace divs]. by rewrite <- app_assoc.
Qed.

Lemma load_failure_ends_run_witness :
  run_llama_test no_model_world default_args (State [] 0)
  = (Raise (ValueError "no model at path"),
     State ([] ++ [EvTokenizer (path default_args); EvModel (path default_args);
                   EvRaised (ValueError "no model at path")]) 0).
Proof.
  apply (proj2 (load_failure_ends_run no_model_world default_args (State [] 0)
                  (ValueError "no model at path"))); reflexivity.
Defined.

Lemma no_statistic_iterations m its :
  Forall (fun e => is_statistic e = false)
         (concat (iteration_events m <$> its)).
Proof.
  induction its as [|it its IH]; [constructor|].
  change (concat (iteration_events m <$> it :: its))
    with (iteration_events m it ++ concat (iteration_events m <$> its)).
  apply Forall_app. split; [by repeat constructor|done].
Qed.

Lemma emits_no_statistic_timing_loop w mil mnt n times outs :
  emits (Forall (fun e => is_statistic e = false))
        (timing_loop w mil mnt n times outs).
Proof.
  apply (emits_timing_loop _ (fun e => negb (is_statistic e))).
  - constructor.
  - intros. by apply Forall_app.
  - intros e He. repeat constructor. by apply negb_true_iff.
  - done.
  - done.
  - done.
  - done.
  - done.
Qed.

Section emits_tail.
Context (Q : list event -> Prop) (ok : event -> bool).
Hypothesis Qnil : Q [].
Hypothesis Qapp : forall evs1 evs2, Q evs1 -> Q evs2 -> Q (evs1 ++ evs2).
Hypothesis Qone : forall e, ok e = true -> Q [e].
Hypothesis ok_those : forall e, is_enter e = false -> is_exit e = false ->
                                is_statistic e = false -> ok e = true.
Hypothesis Qwrap :
  forall enter exit evs, is_enter enter = true -> is_exit exit = true ->
                         Q evs -> Q (enter :: evs ++ [exit]).

Lemma emits_profiled_tail w m :
  emits Q (with_ctx EvProfileEnter EvProfileExit
             (with_ctx (EvRecordEnter "model_inference") EvRecordExit
                (cuda_synchronize w;;
                 engine_generate w m;;
                 cuda_synchronize w));;
           call (profiler_table w) EvKeyAverages;;
           print ProfilerTable).
Proof.
  unfold cuda_synchronize, engine_generate, print.
  eapply emits_bind; [exact Qapp| |intros _].
  - eapply emits_with_ctx; [intros evs H; by apply Qwrap|].
    eapply emits_with_ctx; [intros evs H; by apply Qwrap|].
    repeat emits_step ok_those.
  - repeat emits_step ok_those.
Qed.
End emits_tail.

Lemma emits_no_statistic_after w a :
  emits (Forall (fun e => is_statistic e = false))
        (with_ctx EvProfileEnter EvProfileExit
           (with_ctx (EvRecordEnter "model_inference") EvRecordExit
              (cuda_synchronize w;;
               engine_generate w (output_len a);;
               cuda_synchronize w));;
         call (profiler_table w) EvKeyAverages;;
         print ProfilerTable).
Proof.
  apply (emits_profiled_tail _ (fun e => negb (is_statistic e))).
  - intros. by apply Forall_app.
  - intros e He. repeat constructor. by apply negb_true_iff.
  - intros e _ _ ->. reflexivity.
  - intros enter exit evs He Hx H. constructor; [by destruct enter|].
    apply Forall_app. split; [done|]. repeat constructor. by destruct exit.
Qed.

(** The shape of the trace of any run: either no statistic was printed, or
    ten generate calls precede the statistics. *)
Lemma run_llama_test_shape w a s :
  exists evs,
    trace (run_llama_test w a s).2 = trace s ++ evs /\
    (Forall (fun e => is_statistic e = false) evs \/
     exists U P R,
       evs = U ++ P ++ R /\
       Forall (fun e => is_statistic e = false) U /\
       count_generate U = 10%nat /\
       Forall (fun e => is_generate e = false) P /\
       Forall (fun e => is_statistic e = false) R).
Proof.
  unfold run_llama_test.
  destruct (tokenizer_from_pretrained w (trace s) (path a)) as [[]|e] eqn:H1.
  2:{ rewrite (bind_call_Raise _ _ _ s e) by exact H1.
      eexists. split; [reflexivity|]. left. by repeat constructor. }
  rewrite (bind_call_Ok _ _ _ s tt) by exact H1. cbv beta. cbn [trace divs].
  destruct (model_from_pretrained w (trace s ++ [EvTokenizer (path a)]) (path a))
    as [cfg|e] eqn:H2.
  2:{ rewrite (bind_call_Raise _ _ _ _ e) by exact H2. cbn [trace divs].
      rewrite <- app_assoc.
      eexists. split; [reflexivity|]. left. by repeat constructor. }
  rewrite (bind_call_Ok _ _ _ _ cfg) by exact H2. cbv beta. cbn [trace divs].
  match goal with
  | |- context [(call ?ans ?e ≫= ?k) ?st] =>
      destruct (ans (trace st)) as [[]|x] eqn:H3;
        [rewrite (bind_call_Ok ans e k st tt) by exact H3
        |rewrite (bind_call_Raise ans e k st x) by exact H3;
         cbn [trace divs]; rewrite <- !app_assoc;
         eexists; split; [reflexivity|]; left; by repeat constructor]
  end.
  cbv beta. cbn [trace divs].
  match goal with
  | |- context [(call ?ans ?e ≫= ?k) ?st] =>
      destruct (ans (trace st)) as [[]|x] eqn:H4;
        [rewrite (bind_call_Ok ans e k st tt) by exact H4
        |rewrite (bind_call_Raise ans e k st x) by exact H4;
         cbn [trace divs]; rewrite <- !app_assoc;
         eexists; split; [reflexivity|]; left; by repeat constructor]
  end.
  cbv beta. cbn [trace divs]. rewrite <- !app_assoc.
  change ([EvTokenizer (path a)] ++ [EvModel (path a)]
          ++ [EvEngine (bool_decide (1 < tp_size a)) (batch_size a)
                       (input_len a) (output_len a)]
          ++ [EvInputs (batch_size a) (input_len a)])
    with (setup_events a).
  set (s4 := State (trace s ++ setup_events a) (divs s)).
  destruct (timing_loop w (input_len a) (output_len a) iters [] None s4)
    as [[[times outs]|e] s5] eqn:Hloop.
  2:{ erewrite bind_raise by exact Hloop.
      destruct (emits_no_statistic_timing_loop w (input_len a) (output_len a)
                  iters [] None s4) as (evs & Htr & Hall).
      rewrite Hloop in Htr. cbn [snd] in *. exists (setup_events a ++ evs).
      rewrite Htr. subst s4. cbn [trace]. rewrite <- app_assoc.
      split; [done|]. left. apply Forall_app. split; [by repeat constructor|done]. }
  erewrite bind_ok by exact Hloop. cbv beta iota.
  apply timing_loop_Ok in Hloop
    as (its & Hlen & _ & _ & -> & -> & Htr & _).
  destruct (last its) as [it_last|] eqn:Hlast.
  2:{ apply last_None in Hlast. subst its. discriminate. }
  erewrite bind_ok by reflexivity. cbv beta.
  erewrite bind_ok by reflexivity. cbv beta.
  match goal with
  | |- context [(print_perf_stats ?l ?c ?b ?wu ≫= ?k) ?st] =>
      set (s7 := st); pose proof (print_perf_stats_frame l c b wu s7) as Hstats;
      set (P := printed l c b wu) in *;
      destruct (print_perf_stats l c b wu (State [] 0)) as [r d] eqn:Hr
  end.
  assert (trace s7 = trace s ++ (setup_events a
            ++ concat (iteration_events (output_len a) <$> its)
            ++ [EvPrint (OutputsLen (it_outputs it_last).1)])) as Hs7.
  { subst s7. cbn [trace]. rewrite Htr. subst s4. cbn [trace].
    by rewrite <- !app_assoc. }
  set (U := setup_events a
            ++ concat (iteration_events (output_len a) <$> its)
            ++ [EvPrint (OutputsLen (it_outputs it_last).1)]) in *.
  assert (Forall (fun e => is_statistic e = false) U) as HU.
  { subst U. apply Forall_app. split; [by repeat constructor|].
    apply Forall_app. split; [apply no_statistic_iterations|by repeat constructor]. }
  assert (count_generate U = 10%nat) as HcU.
  { subst U. rewrite !count_generate_app, count_generate_iterations, Hlen.
    reflexivity. }
  assert (Forall (fun e => is_generate e = false) P) as HP.
  { subst P. eapply Forall_impl; [apply printed_quiet|]. by intros e (_ & ? & _). }
  cbn [fst snd] in Hstats. destruct r as [[]|e].
  - erewrite bind_ok by exact Hstats. cbv beta.
    destruct (emits_no_statistic_after w a (append_events s7 P (divs d)))
      as (R & HtrR & HR).
    exists (U ++ P ++ R). rewrite HtrR. unfold append_events. cbn [trace].
    rewrite Hs7, <- !app_assoc. split; [done|]. right.
    exists U, P, R. done.
  - erewrite bind_raise by exact Hstats.
    exists (U ++ P ++ []). unfold append_events. cbn [trace snd].
    rewrite Hs7, app_nil_r, <- !app_assoc. split; [done|]. right.
    exists U, P, []. rewrite app_nil_r. done.
Qed.

Lemma split_after_prefix {A} (p : A -> bool) U V pre e post :
  Forall (fun x => p x = false) U -> p e = true ->
  U ++ V = pre ++ e :: post ->
  exists pre', pre = U ++ pre' /\ V = pre' ++ e :: post.
Proof.
  intros HU He. revert pre. induction HU as [|u U Hu _ IH]; intros pre Heq.
  - by exists pre.
  - destruct pre as [|x pre]; simpl in Heq.
    + injection Heq as -> _. congruence.
    + injection Heq as -> Heq. destruct (IH _ Heq) as (pre' & -> & ->).
      by exists pre'.
Qed.

Lemma split_before_suffix {A} (p : A -> bool) (P R : list A) pre e post :
  Forall (fun x => p x = false) R -> p e = true ->
  P ++ R = pre ++ e :: post ->
  exists post', P = pre ++ e :: post'.
Proof.
  intros HR He. revert pre. induction P as [|x P IH]; intros pre Heq.
  - simpl in Heq. subst R. apply Forall_app in HR as [_ HR].
    apply Forall_cons in HR as [HR _]. congruence.
  - destruct pre as [|y pre]; simpl in Heq.
    + injection Heq as -> _. by exists P.
    + injection Heq as -> Heq. destruct (IH _ Heq) as (post' & ->).
      by exists post'.
Qed.

(** X15.  Statistics are printed only after the timing loop has finished:
    on every path, when a statistic line is printed exactly ten generate
    calls have been made before it. *)
Theorem statistics_after_ten_calls w a s pre e post :
  trace (run_llama_test w a s).2 = trace s ++ pre ++ e :: post ->
  is_statistic e = true ->
  count_generate pre = 10%nat.
Proof.
  intros Htr He.
  destruct (run_llama_test_shape w a s) as (evs & Htr' & Hshape).
  rewrite Htr in Htr'. apply app_inv_head in Htr'. subst evs.
  destruct Hshape as [Hall|(U & P & R & Heq & HU & HcU & HP & HR)].
  - apply Forall_app in Hall as [_ Hall].
    apply Forall_cons in Hall as [Hall _]. congruence.
  - symmetry in Heq.
    destruct (split_after_prefix is_statistic U (P ++ R) pre e post HU He Heq)
      as (pre' & -> & Heq').
    destruct (split_before_suffix is_statistic P R pre' e post HR He Heq')
      as (post' & ->).
    rewrite count_generate_app, HcU.
    apply Forall_app in HP as [HP _].
    rewrite (count_generate_none pre') by done. lia.
Qed.

Lemma statistics_after_ten_calls_witness :
  exists pre e post,
    trace (run_llama_test llama_world default_args (State [] 0)).2
      = [] ++ pre ++ e :: post /\
    is_statistic e = true /\ count_generate pre = 10%nat.
Proof.
  set (tr := trace (run_llama_test llama_world default_args (State [] 0)).2).
  exists (take 65 tr), (default EvSync (tr !! 65%nat)), (drop 66 tr).
  assert (tr = [] ++ take 65 tr ++ default EvSync (tr !! 65%nat) :: drop 66 tr)
    as Heq by by_eval.
  assert (is_statistic (default EvSync (tr !! 65%nat)) = true) as He
    by (vm_compute; reflexivity).
  split; [exact Heq|]. split; [exact He|].
  exact (statistics_after_ten_calls llama_world default_args (State [] 0)
           _ _ _ Heq He).
Defined.

(** ** Further properties of the command line *)

Lemma dest_spelling opt :
  (dest <$> find_argument opt = Some "path" <-> opt ∈ ["-p"; "--path"]) /\
  (dest <$> find_argument opt = Some "tp_size"
   <-> opt ∈ ["-tp"; "--tp_size"]) /\
  (dest <$> find_argument opt = Some "batch_size"
   <-> opt ∈ ["-b"; "--batch_size"]) /\
  (dest <$> find_argument opt = Some "input_len" <-> opt ∈ ["--input_len"]) /\
  (dest <$> find_argument opt = Some "output_len" <-> opt ∈ ["--output_len"]).
Proof.
  unfold find_argument, parser_arguments. simpl.
  repeat case_bool_decide; simpl; set_unfold; naive_solver.
Qed.

Section last_occurrence.
Variable py_int : string -> option Z.

(** After the occurrences are consumed, a destination holds the converted
    value of its last occurrence, or what it held before. *)
Lemma consume_last av ns seen ns' seen' d :
  consume py_int av ns seen = Ok (ns', seen') ->
  match last (filter (fun o => dest <$> find_argument o.1 = Some d) av) with
  | Some o =>
      exists a x, find_argument o.1 = Some a /\
                  convert py_int (type_ a) o.2 = Ok x /\ ns' !! d = Some x
  | None => ns' !! d = ns !! d
  end.
Proof.
  revert ns seen. induction av as [|[opt v] av IH]; intros ns seen.
  { simpl. by intros [= <- <-]. }
  cbn [consume].
  destruct (find_argument opt) as [a|] eqn:Hf; [|discriminate].
  destruct (convert py_int (type_ a) v) as [x|] eqn:Hc; [|discriminate].
  intros H. specialize (IH _ _ H).
  rewrite (filter_cons (fun o : string * string =>
                          dest <$> find_argument o.1 = Some d)).
  destruct (decide (dest <$> find_argument (opt, v).1 = Some d)) as [Hd|Hd];
    [rewrite last_cons|];
    match type of IH with
    | context [last ?G] =>
        match goal with
        | |- context [last ?G'] => change G' with G
        end;
        destruct (last G) as [o|]
    end.
  - exact IH.
  -
    simpl in Hd. rewrite Hf in Hd. injection Hd as <-.
    exists a, x. by rewrite IH, lookup_insert_eq.
  - done.
  - rewrite IH. apply lookup_insert_ne. simpl in Hd. rewrite Hf in Hd.
    simpl in Hd. congruence.
Qed.
End last_occurrence.

Section supplied_values.
Variable py_int : string -> option Z.

Lemma last_value_dest (av : argv) d (spellings : list string) :
  (forall opt, dest <$> find_argument opt = Some d <-> opt ∈ spellings) ->
  last (filter (fun o => dest <$> find_argument o.1 = Some d) av)
  = last (filter (fun o => o.1 ∈ spellings) av).
Proof.
  intros Hsp. f_equal. apply list_filter_iff. intros o. apply Hsp.
Qed.

(** The stored value of a destination in terms of the spellings of its
    option. *)
Lemma consume_last_value av ns seen ns' seen' d (spellings : list string) :
  consume py_int av ns seen = Ok (ns', seen') ->
  (forall opt, dest <$> find_argument opt = Some d <-> opt ∈ spellings) ->
  match last_value av spellings with
  | Some v =>
      exists a x, a ∈ parser_arguments /\ dest a = d /\
                  convert py_int (type_ a) v = Ok x /\ ns' !! d = Some x
  | None => ns' !! d = ns !! d
  end.
Proof.
  intros Hc Hsp. pose proof (consume_last py_int _ _ _ _ _ d Hc) as Hl.
  unfold last_value. rewrite <- (last_value_dest av d spellings Hsp).
  match type of Hl with
  | context [last ?G] =>
      match goal with
      | |- context [last ?G'] => change G' with G
      end;
      destruct (last G) as [o|] eqn:Hlast
  end; simpl; [|exact Hl].
  destruct Hl as (a & x & Hf & Hx & Hd). exists a, x.
  apply last_Some_elem_of, list_elem_of_filter in Hlast as [Ho _].
  rewrite Hf in Ho. injection Ho as Ho.
  apply find_argument_Some in Hf as [Ha _]. done.
Qed.

(** X16.  When parsing succeeds, every field of the result comes from the
    LAST occurrence of its option on the command line, under either of its
    spellings: the path is the value of the last -p/--path, and each of the
    four integers is what [int] reads from the value of the last occurrence
    of its option, or the declared default when the option does not
    occur. *)
Theorem last_occurrence_wins av a :
  parse_args py_int av = Ok a ->
  last_value av ["-p"; "--path"] = Some (path a) /\
  match last_value av ["-tp"; "--tp_size"] with
  | Some v => py_int v = Some (tp_size a)
  | None => tp_size a = 1
  end /\
  match last_value av ["-b"; "--batch_size"] with
  | Some v => py_int v = Some (batch_size a)
  | None => batch_size a = 16
  end /\
  match last_value av ["--input_len"] with
  | Some v => py_int v = Some (input_len a)
  | None => input_len a = 1024
  end /\
  match last_value av ["--output_len"] with
  | Some v => py_int v = Some (output_len a)
  | None => output_len a = 128
  end.
Proof.
  intros Hp. unfold parse_args in Hp.
  destruct (consume py_int av defaults []) as [[ns seen]|] eqn:Hc;
    [|discriminate].
  destruct (forallb _ _); [|discriminate].
  destruct (to_args ns) as [a'|] eqn:Hto; [|discriminate].
  injection Hp as ->.
  pose proof (consume_last_value _ _ _ _ _ "path" ["-p"; "--path"] Hc
                (fun opt => proj1 (dest_spelling opt))) as H1.
  pose proof (consume_last_value _ _ _ _ _ "tp_size" ["-tp"; "--tp_size"] Hc
                (fun opt => proj1 (proj2 (dest_spelling opt)))) as H2.
  pose proof (consume_last_value _ _ _ _ _ "batch_size"
                ["-b"; "--batch_size"] Hc
                (fun opt => proj1 (proj2 (proj2 (dest_spelling opt))))) as H3.
  pose proof (consume_last_value _ _ _ _ _ "input_len" ["--input_len"] Hc
                (fun opt => proj1 (proj2 (proj2 (proj2 (dest_spelling opt))))))
    as H4.
  pose proof (consume_last_value _ _ _ _ _ "output_len" ["--output_len"] Hc
                (fun opt => proj2 (proj2 (proj2 (proj2 (dest_spelling opt))))))
    as H5.
  destruct defaults_lookup as (D1 & D2 & D3 & D4).
  assert (defaults !! "path" = None) as D0 by (vm_compute; reflexivity).
  rewrite ?D0, ?D1, ?D2, ?D3, ?D4 in H1, H2, H3, H4, H5.
  unfold to_args in Hto.
  assert (forall b x v d, b ∈ parser_arguments -> dest b = d ->
            convert py_int (type_ b) v = Ok x ->
            (d = "path" -> x = VStr v) /\
            (d <> "path" -> exists n, x = VInt n /\ py_int v = Some n))
    as Hconv.
  { intros b x v d Hb <- Hx. unfold parser_arguments in Hb. set_unfold.
    destruct Hb as [->|[->|[->|[->|[->|[]]]]]]; simpl in *;
      (split; [intros; try done; by injection Hx as <-|]);
      intros; try done;
      (destruct (py_int v) as [n|]; [|discriminate]);
      injection Hx as <-; by exists n. }
  repeat split.
  - destruct (last_value av ["-p"; "--path"]) as [v|].
    + destruct H1 as (b & x & Hb & Hd & Hx & Hl).
      destruct (Hconv _ _ _ _ Hb Hd Hx) as [Hs _].
      rewrite (Hs eq_refl) in Hl. rewrite Hl in Hto. repeat (case_match; try discriminate);
        by simplify_eq.
    + rewrite H1 in Hto. discriminate.
  - destruct (last_value av ["-tp"; "--tp_size"]) as [v|].
    + destruct H2 as (b & x & Hb & Hd & Hx & Hl).
      destruct (Hconv _ _ _ _ Hb Hd Hx) as [_ Hi].
      destruct Hi as (n & -> & ->); [done|]. rewrite Hl in Hto. repeat (case_match; try discriminate);
        by simplify_eq.
    + rewrite H2 in Hto. repeat (case_match; try discriminate);
        by simplify_eq.
  - destruct (last_value av ["-b"; "--batch_size"]) as [v|].
    + destruct H3 as (b & x & Hb & Hd & Hx & Hl).
      destruct (Hconv _ _ _ _ Hb Hd Hx) as [_ Hi].
      destruct Hi as (n & -> & ->); [done|]. rewrite Hl in Hto. repeat (case_match; try discriminate);
        by simplify_eq.
    + rewrite H3 in Hto. repeat (case_match; try discriminate);
        by simplify_eq.
  - destruct (last_value av ["--input_len"]) as [v|].
    + destruct H4 as (b & x & Hb & Hd & Hx & Hl).
      destruct (Hconv _ _ _ _ Hb Hd Hx) as [_ Hi].
      destruct Hi as (n & -> & ->); [done|]. rewrite Hl in Hto. repeat (case_match; try discriminate);
        by simplify_eq.
    + rewrite H4 in Hto. repeat (case_match; try discriminate);
        by simplify_eq.
  - destruct (last_value av ["--output_len"]) as [v|].
    + destruct H5 as (b & x & Hb & Hd & Hx & Hl).
      destruct (Hconv _ _ _ _ Hb Hd Hx) as [_ Hi].
      destruct Hi as (n & -> & ->); [done|]. rewrite Hl in Hto. repeat (case_match; try discriminate);
        by simplify_eq.
    + rewrite H5 in Hto. repeat (case_match; try discriminate);
        by simplify_eq.
Qed.

Lemma consume_unreadable av ns seen :
  Exists (fun o => exists a, find_argument o.1 = Some a /\ type_ a = TInt /\
                             py_int o.2 = None) av ->
  is_ok (consume py_int av ns seen) = false.
Proof.
  intros Hex. revert ns seen.
  induction Hex as [[opt v] av (a & Hf & Ht & Hv)|[opt v] av _ IH];
    intros ns seen; simpl.
  - simpl in Hf, Hv. by rewrite Hf, Ht; simpl; rewrite Hv.
  - destruct (find_argument opt) as [a|]; [|done].
    destruct (convert py_int (type_ a) v); [apply IH|done].
Qed.

(** X17.  One value that [int] cannot read, given to any of the four
    integer options, makes parsing exit with status 2, wherever it stands
    on the command line: a later readable occurrence of the same option
    does not repair it, and neither does a path. *)
Theorem unreadable_integer_exits av :
  Exists (fun o => o.1 ∈ ["-tp"; "--tp_size"; "-b"; "--batch_size";
                          "--input_len"; "--output_len"] /\
                   py_int o.2 = None) av ->
  parse_args py_int av = Raise (SystemExit 2).
Proof.
  intros Hex.
  destruct (parse_args py_int av) as [a|e] eqn:Hp;
    [|by apply (parse_args_Raise py_int) in Hp as ->].
  exfalso. unfold parse_args in Hp.
  assert (is_ok (consume py_int av defaults []) = false) as Hno.
  { apply consume_unreadable. eapply Exists_impl; [exact Hex|].
    intros [opt v] [Hopt Hv]. simpl in *. set_unfold.
    destruct Hopt as [->|[->|[->|[->|[->|[->|[]]]]]]];
      (eexists; split; [reflexivity|done]). }
  by destruct (consume py_int av defaults []).
Qed.
End supplied_values.

Lemma last_occurrence_wins_witness :
  let av := [("-b", "8"); ("--path", "/old"); ("-p", "/models/llama-7b");
             ("--batch_size", "4")] in
  let a := Args "/models/llama-7b" 1 4 1024 128 in
  parse_args plain_int av = Ok a /\
  last_value av ["-p"; "--path"] = Some (path a) /\
  last_value av ["-b"; "--batch_size"] = Some "4".
Proof.
  intros av a.
  assert (parse_args plain_int av = Ok a) as Hp by (vm_compute; reflexivity).
  split; [exact Hp|]. split; [|reflexivity].
  exact (proj1 (last_occurrence_wins plain_int av a Hp)).
Defined.

Lemma unreadable_integer_exits_witness :
  parse_args plain_int
    [("-p", "/models/llama-7b"); ("-b", "sixteen"); ("-b", "16")]
  = Raise (SystemExit 2).
Proof.
  apply unreadable_integer_exits.
  apply Exists_cons_tl. constructor. split; [set_solver|reflexivity].
Defined.
